(** * A shallow embedding of the 7z FFI SDK front end

    The development follows the C sources of the repository:

    - [src/ffi_interface.c]: library initialisation flag, error messages,
      list disposal and the legacy [sevenzip_compress] adapter;
    - [examples/forensic_archiver.c]: the progress callback with its smoothed
      throughput estimate, and [parse_size];
    - [examples/stream_compress.c]: the size arguments read with [strtoull];
    - [examples/test_aes.c] and the two streaming calls of
      [examples/forensic_archiver.c]: the encryption functions and the
      streaming creator and extractor are defined outside these sources and
      are modelled from the specification.

    C integers are modelled in [Z] with their wrap-around written out, C
    [double] as the IEEE-754 binary64 specification floats of the Standard
    Library ([SpecFloat], precision 53, emax 1024), pointers as optional
    values or heap addresses with [0] as [NULL]. *)

From Stdlib Require Import ZArith String Ascii List Lia Bool SpecFloat Zpower.
From Stdlib.Strings Require Import Byte.
From stdpp Require Import gmap strings list fin_maps.

Open Scope string_scope.
Open Scope list_scope.
Open Scope Z_scope.

(** ** src/ffi_interface.c *)

Module FFI.

(** [const char*] results: [None] is the NULL pointer, [Some s] a pointer to
    the string literal [s] in static storage. *)
Definition c_string := option string.

(** A call to the CRC table generator of the LZMA SDK, the only externally
    visible work [sevenzip_init] performs. *)
Inductive Event := CrcGenerateTable.

(** The process-wide state of the library: the [static int g_initialized]
    flag and the log of external calls made so far. *)
Record Library := mkLibrary {
  g_initialized : Z;
  events : list Event
}.

(** The record [SevenZipCompressOptions] as far as the source names its
    fields. [password] is a [const char*]. *)
Record SevenZipCompressOptions := mkOptions {
  num_threads : Z;
  dict_size : Z;
  solid : Z;
  password : option string
}.

(** [SevenZipCompressOptions options = {0};] *)
Definition options_zero : SevenZipCompressOptions :=
  {| num_threads := 0; dict_size := 0; solid := 0; password := None |}.

Definition set_num_threads (v : Z) (o : SevenZipCompressOptions) :=
  {| num_threads := v; dict_size := dict_size o; solid := solid o;
     password := password o |}.
Definition set_dict_size (v : Z) (o : SevenZipCompressOptions) :=
  {| num_threads := num_threads o; dict_size := v; solid := solid o;
     password := password o |}.
Definition set_solid (v : Z) (o : SevenZipCompressOptions) :=
  {| num_threads := num_threads o; dict_size := dict_size o; solid := v;
     password := password o |}.
Definition set_password (v : option string) (o : SevenZipCompressOptions) :=
  {| num_threads := num_threads o; dict_size := dict_size o; solid := solid o;
     password := v |}.

(** *** Memory for [sevenzip_free_list]

    Pointers are addresses in [Z] with [0] for NULL. The heap maps the address
    of every live allocation to its contents: a [SevenZipList] header, an
    array of [SevenZipEntry], or the characters of a name. *)
Definition ptr := Z.
Definition NULL : ptr := 0.

Record SevenZipEntry := mkEntry {
  name : ptr;
  size : Z;
  packed_size : Z;
  modified_time : Z;
  is_directory : Z
}.

Record SevenZipList := mkList {
  entries : ptr;
  count : Z
}.

Inductive block :=
| BList (l : SevenZipList)
| BEntries (es : list SevenZipEntry)
| BChars (s : string).

Abbreviation heap := (gmap Z block).

(** What can go wrong when memory is touched: reading through NULL, reading
    through a pointer that is not a live allocation of the expected kind or
    past the end of an array, and freeing what is not allocated. *)
Inductive fault := NullDereference | InvalidAccess | InvalidFree.

Inductive result (A : Type) :=
| Ok (a : A)
| Fault (f : fault).
Arguments Ok {A} a.
Arguments Fault {A} f.

Definition bind {A B} (r : result A) (k : A -> result B) : result B :=
  match r with
  | Ok a => k a
  | Fault f => Fault f
  end.

Notation "'do' x <- r ; k" := (bind r (fun x => k))
  (at level 10, x name, r at level 100, k at level 200).

(** [free(p)]; the C library accepts NULL and does nothing then. *)
Definition free (p : ptr) (h : heap) : result heap :=
  if p =? NULL then Ok h
  else match h !! p with
       | Some _ => Ok (delete p h)
       | None => Fault InvalidFree
       end.

(** Reading [*list] for a [SevenZipList* list]. *)
Definition load_list (list : ptr) (h : heap) : result SevenZipList :=
  if list =? NULL then Fault NullDereference
  else match h !! list with
       | Some (BList l) => Ok l
       | _ => Fault InvalidAccess
       end.

(** Reading [arr[i]] for a [SevenZipEntry* arr]. *)
Definition load_entry (arr : ptr) (i : nat) (h : heap) : result SevenZipEntry :=
  if arr =? NULL then Fault NullDereference
  else match h !! arr with
       | Some (BEntries es) =>
           match es !! i with
           | Some e => Ok e
           | None => Fault InvalidAccess
           end
       | _ => Fault InvalidAccess
       end.

(** The [for] loop of [sevenzip_free_list] from index [i] on, with [n]
    iterations left: the header is never written to, so [list->count] is the
    same at every test and [n] is [list->count - i]. Every test reads
    [list->count] and every iteration reads [list->entries[i].name], both
    through [list], as the C code does. *)
Fixpoint free_names (list : ptr) (i n : nat) (h : heap) : result heap :=
  match n with
  | O => do _ <- load_list list h; Ok h
  | S n' =>
      do l <- load_list list h;
      do e <- load_entry (entries l) i h;
      do h' <- (if negb (name e =? NULL) then free (name e) h else Ok h);
      free_names list (S i) n' h'
  end.

Definition sevenzip_free_list (list : ptr) (h : heap) : result heap :=
  if list =? NULL then Ok h
  else
    do l <- load_list list h;
    do h1 <- (if negb (entries l =? NULL) then
                do h' <- free_names list 0 (Z.to_nat (count l)) h;
                do l' <- load_list list h';
                free (entries l') h'
              else Ok h);
    free list h1.

(** The name pointers of an array that are not NULL. *)
Definition live_names (es : list SevenZipEntry) : list ptr :=
  filter (fun p => p <> NULL) (map name es).

(** Removing a list of allocations from the heap. *)
Definition release (ps : list ptr) (h : heap) : heap :=
  foldr delete h ps.

(** A listing at address 100 with three entries at 200; the second entry has
    no name. *)
Definition heap_example : heap :=
  <[100 := BList {| entries := 200; count := 3 |}]>
  (<[200 := BEntries [mkEntry 301 5 3 0 0; mkEntry 0 0 0 0 1;
                      mkEntry 303 7 4 0 0]]>
  (<[301 := BChars "a.txt"]>
  (<[303 := BChars "b.txt"]>
  (<[900 := BChars "other"]> ∅)))).

(** The ten error conditions of the specification's error taxonomy. *)
Inductive ErrorCondition :=
| OpenFileFailed | InvalidOrCorruptArchive | MemoryAllocationFailed
| ExtractFailed | CompressFailed | InvalidParameter | NotImplemented
| InvalidResume | WrongPasswordOrCorrupt | Cancelled.

#[global] Instance ErrorCondition_eq_dec : EqDecision ErrorCondition.
Proof. solve_decision. Defined.

Definition taxonomy : list ErrorCondition :=
  [OpenFileFailed; InvalidOrCorruptArchive; MemoryAllocationFailed;
   ExtractFailed; CompressFailed; InvalidParameter; NotImplemented;
   InvalidResume; WrongPasswordOrCorrupt; Cancelled].

Section ErrorCodes.

(** The enumeration [SevenZipErrorCode] lives in [7z_ffi.h]; its numeric
    values are not visible from the sources, so the eight enumerators the
    switch names are parameters. An error code is a C [int]. *)
Variables SEVENZIP_OK SEVENZIP_ERROR_OPEN_FILE SEVENZIP_ERROR_INVALID_ARCHIVE
  SEVENZIP_ERROR_MEMORY SEVENZIP_ERROR_EXTRACT SEVENZIP_ERROR_COMPRESS
  SEVENZIP_ERROR_INVALID_PARAM SEVENZIP_ERROR_NOT_IMPLEMENTED : Z.

Definition switch_labels : list Z :=
  [SEVENZIP_OK; SEVENZIP_ERROR_OPEN_FILE; SEVENZIP_ERROR_INVALID_ARCHIVE;
   SEVENZIP_ERROR_MEMORY; SEVENZIP_ERROR_EXTRACT; SEVENZIP_ERROR_COMPRESS;
   SEVENZIP_ERROR_INVALID_PARAM; SEVENZIP_ERROR_NOT_IMPLEMENTED].

Definition sevenzip_init (st : Library) : Z * Library :=
  if negb (g_initialized st =? 0) then (SEVENZIP_OK, st)
  else (SEVENZIP_OK,
        {| g_initialized := 1; events := events st ++ [CrcGenerateTable] |}).

Definition sevenzip_cleanup (st : Library) : Library :=
  if g_initialized st =? 0 then st
  else {| g_initialized := 0; events := events st |}.

(** The switch, one test per case label in source order, then [default]. *)
Definition sevenzip_get_error_message (error_code : Z) : c_string :=
  if error_code =? SEVENZIP_OK then Some "Success"
  else if error_code =? SEVENZIP_ERROR_OPEN_FILE then Some "Failed to open file"
  else if error_code =? SEVENZIP_ERROR_INVALID_ARCHIVE
    then Some "Invalid or corrupted archive"
  else if error_code =? SEVENZIP_ERROR_MEMORY then Some "Memory allocation failed"
  else if error_code =? SEVENZIP_ERROR_EXTRACT then Some "Extraction failed"
  else if error_code =? SEVENZIP_ERROR_COMPRESS then Some "Compression failed"
  else if error_code =? SEVENZIP_ERROR_INVALID_PARAM then Some "Invalid parameter"
  else if error_code =? SEVENZIP_ERROR_NOT_IMPLEMENTED
    then Some "Feature not implemented"
  else Some "Unknown error".

(** The string literals of [sevenzip_get_error_message]. *)
Definition message_literals : list string :=
  ["Success"; "Failed to open file"; "Invalid or corrupted archive";
   "Memory allocation failed"; "Extraction failed"; "Compression failed";
   "Invalid parameter"; "Feature not implemented"; "Unknown error"].

(** The error code the source has for a condition of the taxonomy, when it
    has one. *)
Definition code_of_condition (c : ErrorCondition) : option Z :=
  match c with
  | OpenFileFailed => Some SEVENZIP_ERROR_OPEN_FILE
  | InvalidOrCorruptArchive => Some SEVENZIP_ERROR_INVALID_ARCHIVE
  | MemoryAllocationFailed => Some SEVENZIP_ERROR_MEMORY
  | ExtractFailed => Some SEVENZIP_ERROR_EXTRACT
  | CompressFailed => Some SEVENZIP_ERROR_COMPRESS
  | InvalidParameter => Some SEVENZIP_ERROR_INVALID_PARAM
  | NotImplemented => Some SEVENZIP_ERROR_NOT_IMPLEMENTED
  | InvalidResume | WrongPasswordOrCorrupt | Cancelled => None
  end.

(** What the taxonomy sentence asks of an assignment [code_of] of error
    codes to the ten conditions: each condition's message is not the generic
    default, and it is specific to the condition. *)
Definition taxonomy_messages_specific (code_of : ErrorCondition -> Z) : Prop :=
  (forall c, sevenzip_get_error_message (code_of c) <> Some "Unknown error") /\
  (forall c c', sevenzip_get_error_message (code_of c) =
                sevenzip_get_error_message (code_of c') -> c = c').

Section Compress.

(** [sevenzip_create_7z] is implemented elsewhere in the library; it is a
    parameter here: a function of its six arguments that acts on the outside
    world (file system, callback invocations) and returns an error code. *)
Variables Callback UserData World : Type.
Variable sevenzip_create_7z :
  option string -> option (list string) -> Z ->
  option SevenZipCompressOptions -> option Callback -> UserData ->
  World -> Z * World.

(** The body of [sevenzip_compress], statement by statement; [&options] is
    the address of the local, hence never NULL. *)
Definition sevenzip_compress (archive_path : option string)
    (input_paths : option (list string)) (level : Z)
    (password : option string) (progress_callback : option Callback)
    (user_data : UserData) (w : World) : Z * World :=
  let options := options_zero in
  let options := set_num_threads 0 options in
  let options := set_dict_size 0 options in
  let options := set_solid 1 options in
  let options := set_password password options in
  sevenzip_create_7z archive_path input_paths level (Some options)
    progress_callback user_data w.

(** The adapter in the specification's words: the multi-file creator called
    with default options stated explicitly. *)
Definition default_options (password : option string) :=
  {| num_threads := 0; dict_size := 0; solid := 1; password := password |}.

Definition compress_adapter (archive_path : option string)
    (input_paths : option (list string)) (level : Z)
    (password : option string) (progress_callback : option Callback)
    (user_data : UserData) (w : World) : Z * World :=
  sevenzip_create_7z archive_path input_paths level
    (Some (default_options password)) progress_callback user_data w.

End Compress.

(** *** Properties of the error messages *)

Ltac split_labels H :=
  unfold switch_labels in H;
  repeat (apply NoDup_cons in H; destruct H as [? H]);
  repeat match goal with
         | N : _ ∉ _ :: _ |- _ => apply not_elem_of_cons in N; destruct N as [? N]
         end.

Ltac in_list :=
  repeat first [apply list_elem_of_here | apply list_elem_of_further].

Ltac run_switch :=
  unfold sevenzip_get_error_message;
  repeat match goal with
         | |- context [Z.eqb ?a ?b] => destruct (Z.eqb_spec a b); try congruence
         end.

Lemma message_of_unlisted_code error_code :
  error_code ∉ switch_labels ->
  sevenzip_get_error_message error_code = Some "Unknown error".
Proof.
  unfold switch_labels. intros N.
  repeat (apply not_elem_of_cons in N; destruct N as [? N]).
  run_switch.
Qed.

Lemma message_is_literal error_code :
  exists s, sevenzip_get_error_message error_code = Some s /\
            s ∈ message_literals.
Proof.
  unfold message_literals. run_switch; eexists; (split; [reflexivity|]);
    in_list.
Qed.

Lemma specific_messages_few (code_of : ErrorCondition -> Z) :
  (forall c, sevenzip_get_error_message (code_of c) <> Some "Unknown error") ->
  forall c, sevenzip_get_error_message (code_of c) ∈
            map Some (take 8 message_literals).
Proof.
  intros Hspec c. specialize (Hspec c). revert Hspec.
  cbn [message_literals take map].
  run_switch; intros; try congruence; in_list.
Qed.

(** C9. [sevenzip_get_error_message] is total: for every integer error code,
    inside the enumeration or not, it returns a non-NULL pointer to one of its
    string literals, and the literal is "Unknown error" for every code that is
    not a case label of the switch. *)
Theorem get_error_message_total : forall error_code : Z,
  sevenzip_get_error_message error_code <> None /\
  (exists s, sevenzip_get_error_message error_code = Some s /\
             s ∈ message_literals) /\
  (error_code ∉ switch_labels ->
   sevenzip_get_error_message error_code = Some "Unknown error").
Proof.
  intros error_code. split; [|split].
  - destruct (message_is_literal error_code) as (s & -> & _). discriminate.
  - apply message_is_literal.
  - apply message_of_unlisted_code.
Qed.

(** C4, as amended. The seven error conditions for which the source has an
    error code map to their own message, none of them the generic default;
    the source has no error code for InvalidResume, WrongPasswordOrCorrupt
    and Cancelled, and a code that is not a case label of the switch gets
    "Unknown error". The case labels of a C switch are pairwise distinct. *)
Theorem defined_codes_have_specific_messages :
  NoDup switch_labels ->
  (forall c code, code_of_condition c = Some code ->
     sevenzip_get_error_message code <> Some "Unknown error") /\
  (forall c c' code code',
     code_of_condition c = Some code -> code_of_condition c' = Some code' ->
     sevenzip_get_error_message code = sevenzip_get_error_message code' ->
     c = c') /\
  sevenzip_get_error_message SEVENZIP_ERROR_OPEN_FILE
    = Some "Failed to open file" /\
  sevenzip_get_error_message SEVENZIP_ERROR_INVALID_ARCHIVE
    = Some "Invalid or corrupted archive" /\
  sevenzip_get_error_message SEVENZIP_ERROR_MEMORY
    = Some "Memory allocation failed" /\
  sevenzip_get_error_message SEVENZIP_ERROR_EXTRACT
    = Some "Extraction failed" /\
  sevenzip_get_error_message SEVENZIP_ERROR_COMPRESS
    = Some "Compression failed" /\
  sevenzip_get_error_message SEVENZIP_ERROR_INVALID_PARAM
    = Some "Invalid parameter" /\
  sevenzip_get_error_message SEVENZIP_ERROR_NOT_IMPLEMENTED
    = Some "Feature not implemented" /\
  (forall c, c ∈ [InvalidResume; WrongPasswordOrCorrupt; Cancelled] ->
     code_of_condition c = None) /\
  (forall code, code ∉ switch_labels ->
     sevenzip_get_error_message code = Some "Unknown error").
Proof.
  intros Hd. split_labels Hd.
  assert (M1 : sevenzip_get_error_message SEVENZIP_ERROR_OPEN_FILE
               = Some "Failed to open file") by run_switch.
  assert (M2 : sevenzip_get_error_message SEVENZIP_ERROR_INVALID_ARCHIVE
               = Some "Invalid or corrupted archive") by run_switch.
  assert (M3 : sevenzip_get_error_message SEVENZIP_ERROR_MEMORY
               = Some "Memory allocation failed") by run_switch.
  assert (M4 : sevenzip_get_error_message SEVENZIP_ERROR_EXTRACT
               = Some "Extraction failed") by run_switch.
  assert (M5 : sevenzip_get_error_message SEVENZIP_ERROR_COMPRESS
               = Some "Compression failed") by run_switch.
  assert (M6 : sevenzip_get_error_message SEVENZIP_ERROR_INVALID_PARAM
               = Some "Invalid parameter") by run_switch.
  assert (M7 : sevenzip_get_error_message SEVENZIP_ERROR_NOT_IMPLEMENTED
               = Some "Feature not implemented") by run_switch.
  repeat split; try assumption.
  - intros c code Hc.
    destruct c; simpl in Hc; inversion Hc; subst; congruence.
  - intros c c' code code' Hc Hc' E.
    destruct c; simpl in Hc; inversion Hc; subst;
      destruct c'; simpl in Hc'; inversion Hc'; subst;
      try reflexivity; congruence.
  - intros c Hc. repeat (apply elem_of_cons in Hc; destruct Hc as [->|Hc]);
      try reflexivity. inversion Hc.
  - apply message_of_unlisted_code.
Qed.

End ErrorCodes.

(** The enumerators numbered in switch order, for running the functions. *)
Definition get_error_message_0_7 : Z -> c_string :=
  sevenzip_get_error_message 0 1 2 3 4 5 6 7.

Lemma defined_codes_have_specific_messages_witness :
  NoDup (switch_labels 0 1 2 3 4 5 6 7) /\
  get_error_message_0_7 4 = Some "Extraction failed" /\
  get_error_message_0_7 99 = Some "Unknown error".
Proof.
  assert (Hd : NoDup (switch_labels 0 1 2 3 4 5 6 7)).
  { apply (bool_decide_unpack _). vm_compute. exact I. }
  pose proof (defined_codes_have_specific_messages 0 1 2 3 4 5 6 7 Hd) as T.
  split; [exact Hd|]. split.
  - apply T.
  - apply T. apply (bool_decide_unpack _). vm_compute. exact I.
Defined.

Lemma get_error_message_total_witness :
  (99 ∉ switch_labels 0 1 2 3 4 5 6 7) /\
  get_error_message_0_7 99 = Some "Unknown error".
Proof.
  assert (H : 99 ∉ switch_labels 0 1 2 3 4 5 6 7)
    by (apply (bool_decide_unpack _); vm_compute; exact I).
  split; [exact H|].
  destruct (get_error_message_total 0 1 2 3 4 5 6 7 99) as (_ & _ & T).
  apply T. exact H.
Defined.

(** C4, as stated, fails: whatever error codes are given to the ten
    conditions of the taxonomy, and whatever the values of the enumerators,
    some condition gets "Unknown error" or shares its message with another
    one: outside the default the switch has eight literals only. *)
Lemma taxonomy_not_covered :
  ~ exists (ok open_file invalid_archive memory extract compress invalid_param
            not_implemented : Z) (code_of : ErrorCondition -> Z),
      taxonomy_messages_specific ok open_file invalid_archive memory extract
        compress invalid_param not_implemented code_of.
Proof.
  intros (ok & c1 & c2 & c3 & c4 & c5 & c6 & c7 & code_of & Hne & Hinj).
  set (msg := fun c => sevenzip_get_error_message ok c1 c2 c3 c4 c5 c6 c7
                         (code_of c)).
  assert (Hnd : NoDup (map msg taxonomy)).
  { apply NoDup_fmap_2_strong.
    - intros c c' _ _ E. apply Hinj. exact E.
    - apply (bool_decide_unpack _). vm_compute. exact I. }
  assert (Hsub : map msg taxonomy ⊆ map Some (take 8 message_literals)).
  { intros m Hm. apply list_elem_of_fmap in Hm. destruct Hm as (c & -> & _).
    apply specific_messages_few. exact Hne. }
  pose proof (submseteq_length _ _ (NoDup_submseteq _ _ Hnd
    (fun x Hx => Hsub x Hx))) as Hlen.
  simpl in Hlen. lia.
Qed.

(** *** The initialisation flag *)

Section Init.

Variable SEVENZIP_OK : Z.

Fixpoint init_times (n : nat) (st : Library) : Library :=
  match n with
  | O => st
  | S k => init_times k (snd (sevenzip_init SEVENZIP_OK st))
  end.

(** C8. [sevenzip_init] always returns SEVENZIP_OK; when the flag is already
    set it does no work (state and log of external calls unchanged);
    [sevenzip_cleanup] with the flag clear is a no-op; and one
    [sevenzip_cleanup] clears the flag after any number of [sevenzip_init]
    calls, since the flag is a boolean and not a count. *)
Theorem init_cleanup_idempotent :
  (forall st, fst (sevenzip_init SEVENZIP_OK st) = SEVENZIP_OK) /\
  (forall st, g_initialized st <> 0 ->
              snd (sevenzip_init SEVENZIP_OK st) = st) /\
  (forall st, snd (sevenzip_init SEVENZIP_OK (snd (sevenzip_init SEVENZIP_OK st)))
              = snd (sevenzip_init SEVENZIP_OK st)) /\
  (forall st, g_initialized st = 0 -> sevenzip_cleanup st = st) /\
  (forall st, sevenzip_cleanup (sevenzip_cleanup st) = sevenzip_cleanup st) /\
  (forall n st, g_initialized (sevenzip_cleanup (init_times n st)) = 0).
Proof.
  repeat split.
  - intros st. unfold sevenzip_init. destruct (negb _); reflexivity.
  - intros st H. unfold sevenzip_init.
    destruct (Z.eqb_spec (g_initialized st) 0); [contradiction | reflexivity].
  - intros st. unfold sevenzip_init.
    destruct (Z.eqb_spec (g_initialized st) 0) as [E|E]; simpl.
    + reflexivity.
    + destruct (Z.eqb_spec (g_initialized st) 0); [contradiction|reflexivity].
  - intros st H. unfold sevenzip_cleanup. rewrite H. reflexivity.
  - intros st. unfold sevenzip_cleanup.
    destruct (Z.eqb_spec (g_initialized st) 0) as [E|E]; simpl.
    + rewrite E. reflexivity.
    + reflexivity.
  - intros n st. unfold sevenzip_cleanup.
    destruct (Z.eqb_spec (g_initialized (init_times n st)) 0) as [E|E];
      [exact E | reflexivity].
Qed.

End Init.

Lemma init_cleanup_idempotent_witness :
  g_initialized {| g_initialized := 1; events := [CrcGenerateTable] |} <> 0 /\
  snd (sevenzip_init 0 {| g_initialized := 1; events := [CrcGenerateTable] |})
  = {| g_initialized := 1; events := [CrcGenerateTable] |}.
Proof.
  destruct (init_cleanup_idempotent 0) as (_ & H & _).
  split; [simpl; lia|]. apply H. simpl. lia.
Defined.

(** *** The legacy adapter *)

(** C7. [sevenzip_compress] returns what [sevenzip_create_7z] returns on the
    same arguments and the default options (threads 0, dictionary 0, solid 1,
    the given password), and leaves the world as that call leaves it. *)
Theorem sevenzip_compress_is_adapter :
  forall (Callback UserData World : Type)
         (sevenzip_create_7z :
            option string -> option (list string) -> Z ->
            option SevenZipCompressOptions -> option Callback -> UserData ->
            World -> Z * World)
         archive_path input_paths level password progress_callback user_data w,
    sevenzip_compress Callback UserData World sevenzip_create_7z archive_path
      input_paths level password progress_callback user_data w
    = compress_adapter Callback UserData World sevenzip_create_7z archive_path
        input_paths level password progress_callback user_data w /\
    sevenzip_compress Callback UserData World sevenzip_create_7z archive_path
      input_paths level password progress_callback user_data w
    = sevenzip_create_7z archive_path input_paths level
        (Some {| num_threads := 0; dict_size := 0; solid := 1;
                 password := password |})
        progress_callback user_data w.
Proof.
  intros. unfold sevenzip_compress, compress_adapter, default_options.
  unfold set_password, set_solid, set_dict_size, set_num_threads, options_zero.
  cbn [num_threads dict_size solid FFI.password].
  split; reflexivity.
Qed.

(** *** Disposal of a listing *)

Lemma free_not_null_deref p h : free p h <> Fault NullDereference.
Proof.
  unfold free. destruct (p =? NULL); [discriminate|].
  destruct (h !! p); discriminate.
Qed.

Lemma free_names_not_null_deref list n : forall i h,
  list <> NULL ->
  (forall l, h !! list = Some (BList l) -> entries l <> NULL) ->
  free_names list i n h <> Fault NullDereference.
Proof.
  induction n as [|n IH]; intros i h Hl He; simpl.
  { unfold load_list. destruct (Z.eqb_spec list NULL) as [|_]; [contradiction|].
    destruct (h !! list) as [[l| |]|]; simpl; discriminate. }
  unfold load_list. destruct (Z.eqb_spec list NULL) as [|_]; [contradiction|].
  destruct (h !! list) as [[l| |]|] eqn:Hh; simpl; try discriminate.
  unfold load_entry.
  destruct (Z.eqb_spec (entries l) NULL) as [E|_];
    [exfalso; exact (He l eq_refl E)|].
  destruct (h !! entries l) as [[|es|]|]; simpl; try discriminate.
  destruct (es !! i) as [e|]; simpl; [|discriminate].
  destruct (negb (name e =? NULL)) eqn:Hn; simpl.
  - unfold free. apply negb_true_iff in Hn. rewrite Hn.
    destruct (h !! name e) eqn:Hname; simpl; [|discriminate].
    apply IH; [exact Hl|]. intros l' Hl'.
    destruct (decide (name e = list)) as [E|Hne].
    + rewrite E, lookup_delete_eq in Hl'. discriminate.
    + rewrite lookup_delete_ne in Hl' by exact Hne. apply He. congruence.
  - apply IH; [exact Hl|]. intros l' Hl'. apply He. congruence.
Qed.

Lemma release_delete p ps (h : heap) :
  release ps (delete p h) = delete p (release ps h).
Proof.
  induction ps as [|q ps IH]; simpl; [reflexivity|].
  rewrite IH. apply delete_delete.
Qed.

Lemma release_lookup_ne ps (h : heap) q :
  q ∉ ps -> release ps h !! q = h !! q.
Proof.
  induction ps as [|p ps IH]; simpl; intros Hq; [reflexivity|].
  apply not_elem_of_cons in Hq. destruct Hq as [Hne Hq].
  rewrite lookup_delete_ne by congruence. apply IH. exact Hq.
Qed.

Lemma live_names_cons e es :
  live_names (e :: es) =
  if decide (name e <> NULL) then name e :: live_names es else live_names es.
Proof.
  unfold live_names. simpl. rewrite filter_cons.
  destruct (decide (name e <> NULL)); reflexivity.
Qed.

(** The loop on a well-formed array: every name that is not NULL is a live
    allocation, and the allocations are pairwise different. *)
Lemma free_names_wellformed list arr n0 : forall post pre h,
  list <> NULL -> arr <> NULL ->
  h !! list = Some (BList {| entries := arr; count := n0 |}) ->
  h !! arr = Some (BEntries (pre ++ post)) ->
  NoDup (list :: arr :: live_names post) ->
  (forall p, p ∈ live_names post -> is_Some (h !! p)) ->
  free_names list (length pre) (length post) h
  = Ok (release (live_names post) h).
Proof.
  induction post as [|e post IH]; intros pre h Hl Ha Hhl Hha Hnd Hlive.
  - cbn [length free_names]. unfold load_list.
    destruct (Z.eqb_spec list NULL) as [|_]; [contradiction|].
    rewrite Hhl. reflexivity.
  - cbn [length free_names]. unfold load_list.
    destruct (Z.eqb_spec list NULL) as [|_]; [contradiction|].
    rewrite Hhl. cbn [bind entries]. unfold load_entry.
    destruct (Z.eqb_spec arr NULL) as [|_]; [contradiction|].
    rewrite Hha, list_lookup_middle by reflexivity. cbn [bind].
    rewrite live_names_cons in Hnd, Hlive |- *.
    assert (Hpre : length (pre ++ [e]) = S (length pre))
      by (rewrite length_app; simpl; lia).
    destruct (decide (name e <> NULL)) as [Hne|Heq].
    + destruct (Z.eqb_spec (name e) NULL) as [|_]; [contradiction|].
      cbn [negb]. unfold free.
      destruct (Z.eqb_spec (name e) NULL) as [|_]; [contradiction|].
      destruct (Hlive (name e)) as [b Hb]; [apply list_elem_of_here|].
      rewrite Hb. cbn [bind].
      apply NoDup_cons in Hnd. destruct Hnd as [Hl1 Hnd].
      apply NoDup_cons in Hnd. destruct Hnd as [Ha1 Hnd].
      apply NoDup_cons in Hnd. destruct Hnd as [He1 Hnd].
      apply not_elem_of_cons in Hl1. destruct Hl1 as [Hla Hl1].
      apply not_elem_of_cons in Hl1. destruct Hl1 as [Hle Hl1].
      apply not_elem_of_cons in Ha1. destruct Ha1 as [Hae Ha1].
      rewrite <- Hpre.
      rewrite (IH (pre ++ [e]) (delete (name e) h)).
      * simpl. apply f_equal. apply release_delete.
      * exact Hl.
      * exact Ha.
      * rewrite lookup_delete_ne by congruence. exact Hhl.
      * rewrite lookup_delete_ne by congruence.
        rewrite <- app_assoc. exact Hha.
      * apply NoDup_cons. split.
        { apply not_elem_of_cons. split; assumption. }
        apply NoDup_cons. split; assumption.
      * intros p Hp. rewrite lookup_delete_ne.
        { apply Hlive. apply list_elem_of_further. exact Hp. }
        intros E. apply He1. rewrite E. exact Hp.
    + assert (E : name e = NULL) by (destruct (decide (name e = NULL)); tauto).
      rewrite E. cbn [Z.eqb NULL negb bind].
      rewrite <- Hpre. apply (IH (pre ++ [e]) h); try assumption.
      rewrite <- app_assoc. exact Hha.
Qed.

(** C10. [sevenzip_free_list] on degenerate inputs: with a NULL list it
    returns and leaves the heap as it is; on no heap and no pointer does it
    read through NULL; a list whose array pointer is NULL loses the header
    only; and for a list whose array holds names of which some are NULL, what
    is freed is the names that are not NULL, the array and the header. *)
Theorem free_list_null_safe :
  (forall h, sevenzip_free_list NULL h = Ok h) /\
  (forall list h, sevenzip_free_list list h <> Fault NullDereference) /\
  (forall list n (h : heap),
     list <> NULL ->
     h !! list = Some (BList {| entries := NULL; count := n |}) ->
     sevenzip_free_list list h = Ok (delete list h)) /\
  (forall list arr es (h : heap),
     list <> NULL -> arr <> NULL ->
     h !! list = Some (BList {| entries := arr;
                                count := Z.of_nat (length es) |}) ->
     h !! arr = Some (BEntries es) ->
     NoDup (list :: arr :: live_names es) ->
     (forall p, p ∈ live_names es -> is_Some (h !! p)) ->
     sevenzip_free_list list h
     = Ok (release (list :: arr :: live_names es) h)).
Proof.
  split; [|split; [|split]].
  - intros h. reflexivity.
  - intros list h. unfold sevenzip_free_list.
    destruct (Z.eqb_spec list NULL) as [|Hl]; [discriminate|].
    unfold load_list at 1.
    destruct (Z.eqb_spec list NULL) as [|_]; [contradiction|].
    destruct (h !! list) as [[l| |]|] eqn:Hh; simpl; try discriminate.
    destruct (Z.eqb_spec (entries l) NULL) as [E|E]; simpl.
    + apply free_not_null_deref.
    + pose proof (free_names_not_null_deref list (Z.to_nat (count l)) 0%nat h
        Hl) as Hloop.
      destruct (free_names list 0 (Z.to_nat (count l)) h) as [h'|f] eqn:Hf;
        simpl.
      * unfold load_list.
        destruct (Z.eqb_spec list NULL) as [|_]; [contradiction|].
        destruct (h' !! list) as [[l'| |]|]; simpl; try discriminate.
        destruct (free (entries l') h') as [h1|f] eqn:Hfr; simpl.
        { apply free_not_null_deref. }
        { intros Hc. apply (free_not_null_deref (entries l') h').
          rewrite Hfr. exact Hc. }
      * apply Hloop. intros l' Hl'. congruence.
  - intros list n h Hl Hh. unfold sevenzip_free_list, load_list.
    destruct (Z.eqb_spec list NULL) as [|_]; [contradiction|].
    rewrite Hh. simpl. unfold free.
    destruct (Z.eqb_spec list NULL) as [|_]; [contradiction|].
    rewrite Hh. reflexivity.
  - intros list arr es h Hl Ha Hhl Hha Hnd Hlive.
    unfold sevenzip_free_list, load_list.
    destruct (Z.eqb_spec list NULL) as [|_]; [contradiction|].
    rewrite Hhl. cbn [bind entries count].
    destruct (Z.eqb_spec arr NULL) as [|_]; [contradiction|].
    cbn [negb]. rewrite Nat2Z.id.
    pose proof (free_names_wellformed list arr _ es [] h Hl Ha Hhl Hha Hnd
      Hlive) as Hloop.
    change (length (@nil SevenZipEntry)) with 0%nat in Hloop.
    rewrite Hloop. cbn [bind].
    apply NoDup_cons in Hnd. destruct Hnd as [Hl1 Hnd].
    apply NoDup_cons in Hnd. destruct Hnd as [Ha1 Hnd].
    apply not_elem_of_cons in Hl1. destruct Hl1 as [Hla Hl1].
    destruct (Z.eqb_spec list NULL) as [|_]; [contradiction|].
    rewrite release_lookup_ne, Hhl by exact Hl1. cbn [bind entries].
    unfold free.
    destruct (Z.eqb_spec arr NULL) as [|_]; [contradiction|].
    rewrite release_lookup_ne, Hha by exact Ha1. cbn [bind].
    destruct (Z.eqb_spec list NULL) as [|_]; [contradiction|].
    rewrite lookup_delete_ne by congruence.
    rewrite release_lookup_ne, Hhl by exact Hl1.
    reflexivity.
Qed.

Lemma free_list_null_safe_witness :
  sevenzip_free_list 100 heap_example = Ok (<[900 := BChars "other"]> ∅).
Proof.
  destruct free_list_null_safe as (_ & _ & _ & H).
  rewrite (H 100 200 [mkEntry 301 5 3 0 0; mkEntry 0 0 0 0 1;
                      mkEntry 303 7 4 0 0] heap_example).
  - apply f_equal. apply map_eq. intros k. unfold heap_example.
    vm_compute live_names. cbn [release foldr].
    rewrite !lookup_delete, !lookup_insert.
    repeat case_decide; try reflexivity; lia.
  - unfold NULL. lia.
  - unfold NULL. lia.
  - reflexivity.
  - reflexivity.
  - apply (bool_decide_unpack _). vm_compute. exact I.
  - intros p Hp. vm_compute live_names in Hp.
    repeat (apply elem_of_cons in Hp; destruct Hp as [->|Hp]);
      [eexists; reflexivity | eexists; reflexivity | inversion Hp].
Defined.

End FFI.

(** ** C [double] arithmetic

    A [double] is an IEEE-754 binary64 value; the operations round to nearest,
    ties to even, as the specification floats of the Standard Library do. *)

Module Double.

Definition double := spec_float.
Definition prec : Z := 53.
Definition emax : Z := 1024.

Definition add : double -> double -> double := SFadd prec emax.
Definition mul : double -> double -> double := SFmul prec emax.
Definition div : double -> double -> double := SFdiv prec emax.

(** Conversion of an integer to [double], as in [(double)bytes_diff] or the
    usual arithmetic conversion of an [int] operand. *)
Definition of_Z (z : Z) : double := binary_normalize prec emax z 0 false.

(** The literals [0.7] and [0.3]: the doubles nearest to 7/10 and 3/10. *)
Definition lit_0_7 : double := div (of_Z 7) (of_Z 10).
Definition lit_0_3 : double := div (of_Z 3) (of_Z 10).

(** The cast [(uint64_t)x]: truncation towards zero; C leaves it undefined
    ([None]) when the truncated value is outside the range of [uint64_t]. *)
Definition to_uint64 (x : double) : option Z :=
  match x with
  | S754_zero _ => Some 0
  | S754_finite s m e =>
      let t := if 0 <=? e then Z.pos m * 2 ^ e else Z.pos m / 2 ^ (- e) in
      if s then (if t =? 0 then Some 0 else None)
      else if t <? 2 ^ 64 then Some t else None
  | _ => None
  end.

(** [x] is the positive integer [v], held with a full 53-bit mantissa and an
    exponent of at most [b]. *)
Definition represents (b : Z) (x : double) (v : Z) : Prop :=
  exists m e, x = S754_finite false m e /\ digits2_pos m = 53%positive /\
              -52 <= e <= b /\ Z.pos m * 2 ^ (e + 52) = v * 2 ^ 52.

Example lit_0_7_bits : lit_0_7 = S754_finite false 6305039478318694 (-53).
Proof. vm_compute. reflexivity. Qed.

Example lit_0_3_bits : lit_0_3 = S754_finite false 5404319552844595 (-54).
Proof. vm_compute. reflexivity. Qed.

Lemma add_comm x y : add x y = add y x.
Proof.
  unfold add, SFadd.
  destruct x as [[|]|[|]| |sx mx ex], y as [[|]|[|]| |sy my ey];
    try reflexivity.
  rewrite (Z.min_comm ex ey), Z.add_comm. reflexivity.
Qed.

Lemma mul_comm x y : mul x y = mul y x.
Proof.
  unfold mul, SFmul.
  destruct x as [sx|sx| |sx mx ex], y as [sy|sy| |sy my ey];
    rewrite ?(xorb_comm sx sy); try reflexivity.
  rewrite (Pos.mul_comm mx my), (Z.add_comm ex ey). reflexivity.
Qed.

Lemma digits2_shift k : forall p,
  digits2_pos (Pos.iter xO p k) = (digits2_pos p + k)%positive.
Proof.
  induction k using Pos.peano_ind; intros p.
  - simpl. lia.
  - rewrite Pos.iter_succ. simpl. rewrite IHk. lia.
Qed.

Lemma digits2_bounds p :
  2 ^ (Z.pos (digits2_pos p) - 1) <= Z.pos p < 2 ^ Z.pos (digits2_pos p).
Proof.
  induction p as [p IH|p IH|]; cbn [digits2_pos].
  - rewrite Pos2Z.inj_succ.
    replace (Z.succ (Z.pos (digits2_pos p)) - 1) with
      (Z.succ (Z.pos (digits2_pos p) - 1)) by lia.
    rewrite !Z.pow_succ_r by lia. lia.
  - rewrite Pos2Z.inj_succ.
    replace (Z.succ (Z.pos (digits2_pos p)) - 1) with
      (Z.succ (Z.pos (digits2_pos p) - 1)) by lia.
    rewrite !Z.pow_succ_r by lia. lia.
  - simpl. lia.
Qed.

Lemma iter_pos_succ {A} (f : A -> A) n x :
  SpecFloat.iter_pos f (Pos.succ n) x = f (SpecFloat.iter_pos f n x).
Proof.
  assert (G : forall n x, SpecFloat.iter_pos f n (f x)
                          = f (SpecFloat.iter_pos f n x)).
  { clear. induction n; intros x; simpl; rewrite ?IHn; reflexivity. }
  revert x. induction n; intros x; simpl.
  - rewrite IHn, IHn. rewrite !G. reflexivity.
  - rewrite !G. reflexivity.
  - reflexivity.
Qed.

Lemma shr_shift k : forall p,
  SpecFloat.iter_pos shr_1 k
    {| shr_m := Z.pos (Pos.iter xO p k); shr_r := false; shr_s := false |}
  = {| shr_m := Z.pos p; shr_r := false; shr_s := false |}.
Proof.
  induction k using Pos.peano_ind; intros p.
  - reflexivity.
  - rewrite iter_pos_succ, Pos.iter_succ_r. rewrite IHk. reflexivity.
Qed.

(** A full mantissa with an exponent in range is not rounded. *)
Lemma round_canonical m e :
  digits2_pos m = 53%positive -> -1074 <= e <= 971 ->
  binary_round_aux prec emax false (Z.pos m) e loc_Exact
  = S754_finite false m e.
Proof.
  intros Hd He.
  unfold binary_round_aux, shr_fexp, Zdigits2, fexp, emin, prec, emax.
  rewrite Hd.
  replace (Z.max (53 + e - 53) (3 - 1024 - 53) - e) with 0 by lia.
  cbn [shr shr_record_of_loc shr_m loc_of_shr_record round_nearest_even].
  rewrite Hd.
  replace (Z.max (53 + e - 53) (3 - 1024 - 53) - e) with 0 by lia.
  cbn [shr shr_record_of_loc shr_m].
  destruct (Z.leb_spec e (1024 - 53)); [reflexivity | lia].
Qed.

Lemma of_Z_pos p :
  (digits2_pos p <= 53)%positive ->
  of_Z (Z.pos p) =
  match 53 - Z.pos (digits2_pos p) with
  | Z.pos k => S754_finite false (Pos.iter xO p k) (- Z.pos k)
  | _ => S754_finite false p 0
  end.
Proof.
  intros Hd.
  unfold of_Z, binary_normalize, binary_round, shl_align, fexp, emin, prec,
    emax.
  replace (Z.max (Z.pos (digits2_pos p) + 0 - 53) (3 - 1024 - 53) - 0)
    with (Z.pos (digits2_pos p) - 53) by lia.
  destruct (53 - Z.pos (digits2_pos p)) as [|k|k] eqn:E; try lia.
  - replace (Z.pos (digits2_pos p) - 53) with 0 by lia.
    apply round_canonical; lia.
  - replace (Z.pos (digits2_pos p) - 53) with (Z.neg k) by lia.
    replace (Z.max (Z.pos (digits2_pos p) + 0 - 53) (3 - 1024 - 53))
      with (- Z.pos k) by lia.
    apply round_canonical; [rewrite digits2_shift; lia | lia].
Qed.

(** Integers below 2^53 convert exactly. *)
Lemma of_Z_represents v : 0 < v < 2 ^ 53 -> represents 0 (of_Z v) v.
Proof.
  intros [Hpos Hlt]. destruct v as [|p|p]; try lia.
  pose proof (digits2_bounds p) as [Hlo _].
  assert (Hd : (digits2_pos p <= 53)%positive).
  { destruct (Pos.leb_spec (digits2_pos p) 53) as [|Hgt]; [assumption|].
    exfalso. assert (2 ^ 53 <= 2 ^ (Z.pos (digits2_pos p) - 1))
      by (apply Z.pow_le_mono_r; lia). lia. }
  rewrite of_Z_pos by exact Hd.
  destruct (53 - Z.pos (digits2_pos p)) as [|k|k] eqn:E; try lia.
  - exists p, 0. repeat split; lia.
  - exists (Pos.iter xO p k), (- Z.pos k). repeat split; try lia.
    + rewrite digits2_shift. lia.
    + change (Pos.iter xO p k) with (shift_pos k p).
      rewrite shift_pos_correct, Z.pow_pos_fold.
      replace (2 ^ 52) with (2 ^ (- Z.pos k + 52) * 2 ^ Z.pos k).
      * lia.
      * rewrite <- Z.pow_add_r by lia. f_equal. lia.
Qed.

Lemma of_Z_1024 : of_Z 1024 = S754_finite false 4503599627370496 (-42).
Proof. vm_compute. reflexivity. Qed.

(** Multiplying by 1024 adds ten to the exponent and is exact. *)
Lemma mul_1024_represents b x v :
  represents b x v -> b + 10 <= 971 ->
  represents (b + 10) (mul x (of_Z 1024)) (v * 1024).
Proof.
  intros (m & e & -> & Hd & He & Hv) Hb.
  rewrite of_Z_1024. unfold mul, SFmul. cbn [xorb].
  replace (m * 4503599627370496)%positive with (Pos.iter xO m 52).
  2:{ change (Pos.iter xO m 52) with (shift_pos 52 m).
      apply Pos2Z.inj. rewrite shift_pos_correct, Pos2Z.inj_mul.
      change (Z.pow_pos 2 52) with 4503599627370496. lia. }
  unfold binary_round_aux, shr_fexp, Zdigits2, fexp, emin, prec, emax.
  rewrite digits2_shift, Hd.
  replace (Z.max (Z.pos (53 + 52) + (e + -42) - 53) (3 - 1024 - 53)
           - (e + -42)) with 52 by lia.
  cbn [shr shr_record_of_loc]. rewrite shr_shift.
  cbn [shr_m loc_of_shr_record round_nearest_even]. rewrite Hd.
  replace (Z.max (53 + (e + -42 + 52) - 53) (3 - 1024 - 53)
           - (e + -42 + 52)) with 0 by lia.
  cbn [shr shr_m].
  destruct (Z.leb_spec (e + -42 + 52) (1024 - 53)); [|lia].
  exists m, (e + -42 + 52). repeat split; try lia.
  replace (e + -42 + 52 + 52) with (e + 52 + 10) by lia.
  rewrite Z.pow_add_r by lia. change (2 ^ 10) with 1024. lia.
Qed.

Lemma to_uint64_represents b x v :
  represents b x v -> v < 2 ^ 64 -> to_uint64 x = Some v.
Proof.
  intros (m & e & -> & Hd & He & Hv) Hlt. unfold to_uint64.
  assert (Ht : (if 0 <=? e then Z.pos m * 2 ^ e else Z.pos m / 2 ^ (- e))
               = v).
  { destruct (Z.leb_spec 0 e).
    - rewrite Z.pow_add_r in Hv by lia. lia.
    - assert (E : Z.pos m = v * 2 ^ (- e)).
      { replace (2 ^ 52) with (2 ^ (e + 52) * 2 ^ (- e)) in Hv.
        - assert (0 < 2 ^ (e + 52)) by (apply Z.pow_pos_nonneg; lia). nia.
        - rewrite <- Z.pow_add_r by lia. f_equal. lia. }
      rewrite E. apply Z.div_mul.
      assert (0 < 2 ^ (- e)) by (apply Z.pow_pos_nonneg; lia). lia. }
  cbv zeta. rewrite Ht.
  destruct (Z.ltb_spec v (2 ^ 64)); [reflexivity | lia].
Qed.

End Double.

(** ** examples/forensic_archiver.c *)

Module Forensic.
Import Double.








Section ParseSize.

(** [strtod] of the C library: the converted value and the rest of the
    string, which [endptr] points to. *)
Variable strtod : string -> double * string.

Definition is_unit (lower upper unit : ascii) : bool :=
  Ascii.eqb unit lower || Ascii.eqb unit upper.

(** [parse_size]; the products are evaluated left to right in [double], the
    integer constants converted to [double]. A unit that is none of the eight
    letters leaves the switch and reaches the final [return]. *)
Definition parse_size (size_str : string) : option Z :=
  let (value, endptr) := strtod size_str in
  let k := of_Z 1024 in
  match endptr with
  | String unit _ =>
      if is_unit "k" "K" unit then to_uint64 (mul value k)
      else if is_unit "m" "M" unit then to_uint64 (mul (mul value k) k)
      else if is_unit "g" "G" unit then to_uint64 (mul (mul (mul value k) k) k)
      else if is_unit "t" "T" unit
        then to_uint64 (mul (mul (mul (mul value k) k) k) k)
      else to_uint64 value
  | EmptyString => to_uint64 value
  end.

End ParseSize.

(** The binary multiple a unit letter stands for. *)
Definition multiplier (unit : ascii) : Z :=
  if is_unit "k" "K" unit then 1024
  else if is_unit "m" "M" unit then 1024 ^ 2
  else if is_unit "g" "G" unit then 1024 ^ 3
  else if is_unit "t" "T" unit then 1024 ^ 4
  else 1.

Definition multiplier_at (endptr : string) : Z :=
  match endptr with
  | String unit _ => multiplier unit
  | EmptyString => 1
  end.

(** *** The smoothed throughput *)







End Forensic.

(** ** examples/stream_compress.c *)

Module StreamCompress.

Definition ULLONG_MAX : Z := 2 ^ 64 - 1.

Definition isspace (c : ascii) : bool :=
  let n := Z.of_nat (nat_of_ascii c) in
  (n =? 32) || ((9 <=? n) && (n <=? 13)).

Definition digit_value (c : ascii) : option Z :=
  let n := Z.of_nat (nat_of_ascii c) in
  if (48 <=? n) && (n <=? 57) then Some (n - 48) else None.

Fixpoint skip_spaces (s : string) : string :=
  match s with
  | String c rest => if isspace c then skip_spaces rest else s
  | EmptyString => s
  end.

(** The decimal digits at the front of [s], accumulated onto [acc]. *)
Fixpoint read_digits (acc : Z) (s : string) : Z :=
  match s with
  | String c rest =>
      match digit_value c with
      | Some d => read_digits (acc * 10 + d) rest
      | None => acc
      end
  | EmptyString => acc
  end.

(** [strtoull(nptr, NULL, 10)] of the C library: white space, an optional
    sign, then decimal digits up to the first other character; 0 when there
    is no digit, [ULLONG_MAX] on overflow, negation modulo 2^64 after a
    minus sign. *)
Definition strtoull (nptr : string) : Z :=
  let s := skip_spaces nptr in
  let '(negative, digits) :=
    match s with
    | String "-" rest => (true, rest)
    | String "+" rest => (false, rest)
    | _ => (false, s)
    end in
  let v := read_digits 0 digits in
  if ULLONG_MAX <? v then ULLONG_MAX
  else if negative then (2 ^ 64 - v) mod 2 ^ 64
  else v.

(** [opts.split_size = strtoull(argv[++i], NULL, 10);] and the same for
    [opts.chunk_size]. *)
Definition size_argument (arg : string) : Z := strtoull arg.

Lemma read_digits_stops ds : forall acc c rest,
  digit_value c = None ->
  read_digits acc (ds ++ String c rest)%string = read_digits acc ds.
Proof.
  induction ds as [|d ds IH]; intros acc c rest Hc; simpl.
  - rewrite Hc. reflexivity.
  - destruct (digit_value d); [apply IH; exact Hc | reflexivity].
Qed.

(** What follows the digits is not looked at. *)
Lemma size_argument_ignores_suffix d ds c rest :
  digit_value d <> None -> digit_value c = None ->
  size_argument (String d ds ++ String c rest)%string
  = size_argument (String d ds).
Proof.
  intros Hd Hc. unfold size_argument, strtoull.
  assert (Hsp : isspace d = false).
  { unfold digit_value in Hd. unfold isspace.
    destruct ((48 <=? Z.of_nat (nat_of_ascii d))
              && (Z.of_nat (nat_of_ascii d) <=? 57)) eqn:E; [|congruence].
    apply andb_true_iff in E. destruct E as [E1 E2].
    apply Z.leb_le in E1.
    apply orb_false_iff. split.
    - apply Z.eqb_neq. lia.
    - apply andb_false_iff. right. apply Z.leb_gt. lia. }
  change (String d ds ++ String c rest)%string
    with (String d (ds ++ String c rest)%string).
  cbn [skip_spaces]. rewrite Hsp.
  assert (E : forall r,
    match String d r with
    | String "-" rest0 => (true, rest0)
    | String "+" rest0 => (false, rest0)
    | _ => (false, String d r)
    end = (false, String d r)).
  { intros r. unfold digit_value in Hd.
    destruct d as [[] [] [] [] [] [] [] []]; try reflexivity;
      exfalso; apply Hd; reflexivity. }
  rewrite !E. cbn [read_digits].
  destruct (digit_value d); [|congruence].
  rewrite read_digits_stops by exact Hc. reflexivity.
Qed.

End StreamCompress.

(** ** Size arguments of the two command lines *)

Module SizeArguments.
Import Double Forensic StreamCompress.

Fixpoint skip_digits (s : string) : string :=
  match s with
  | String c rest =>
      match digit_value c with
      | Some _ => skip_digits rest
      | None => s
      end
  | EmptyString => s
  end.

(** [strtod] on the strings that start with decimal digits not continued by
    a fraction or an exponent: the integer is converted with correct
    rounding and [endptr] stops at the first other character. *)
Definition strtod_decimal (nptr : string) : double * string :=
  (of_Z (read_digits 0 nptr), skip_digits nptr).

Fixpoint count_digits (s : string) : nat :=
  match s with
  | String c rest =>
      match digit_value c with
      | Some _ => S (count_digits rest)
      | None => O
      end
  | EmptyString => O
  end.

(** [strtod] on an optional sign, decimal digits and, optionally, a point
    and more digits, not continued by an exponent, with at most fifteen
    digits in all: the digits without the point and the power of ten are
    integers that [double] holds exactly, and their quotient is rounded once,
    to the nearest [double]; [endptr] stops at the first character after the
    number. *)
Definition strtod_point (nptr : string) : double * string :=
  let '(negative, s) :=
    match nptr with
    | String "-" rest => (true, rest)
    | String "+" rest => (false, rest)
    | _ => (false, nptr)
    end in
  let whole := read_digits 0 s in
  let '(numerator, scale, endptr) :=
    match skip_digits s with
    | String "." fraction =>
        (read_digits whole fraction, 10 ^ Z.of_nat (count_digits fraction),
         skip_digits fraction)
    | rest => (whole, 1, rest)
    end in
  let value := div (of_Z numerator) (of_Z scale) in
  (if negative then SFopp value else value, endptr).

(** [x] is a binary64 number whose value is the non-negative fraction
    [n / 2^j]. *)
Definition holds (x : double) (n j : Z) : Prop :=
  0 <= n /\ 0 <= j /\ valid_binary prec emax x = true /\
  match x with
  | S754_zero _ => n = 0
  | S754_finite false m e => Z.pos m * 2 ^ (e + 1074) * 2 ^ j = n * 2 ^ 1074
  | _ => False
  end.

Definition digit_char (d : Z) : ascii := ascii_of_nat (Z.to_nat (48 + d)).

(** The decimal digits of [n], most significant first, put in front of
    [acc]; [fuel] bounds their number. *)
Fixpoint decimal_digits (fuel : nat) (n : Z) (acc : string) : string :=
  match fuel with
  | O => acc
  | S fuel' =>
      let acc' := String (digit_char (n mod 10)) acc in
      if n / 10 =? 0 then acc' else decimal_digits fuel' (n / 10) acc'
  end.

(** The decimal numeral of a non-negative integer, as it is typed for a byte
    count; a number has no more decimal digits than binary ones. *)
Definition decimal (n : Z) : string :=
  decimal_digits (S (Z.to_nat (Z.log2 n))) n EmptyString.

Example decimal_4_GiB : decimal 4294967296 = "4294967296".
Proof. vm_compute. reflexivity. Qed.

Example strtod_point_1_5g :
  strtod_point "1.5g" = (S754_finite false 6755399441055744 (-52), "g").
Proof. vm_compute. reflexivity. Qed.

(** *** Scaling by 1024 in [double] *)

Lemma bounded_inv m e :
  bounded prec emax m e = true ->
  Z.max (Z.pos (digits2_pos m) + e - 53) (-1074) = e /\ e <= 971.
Proof.
  unfold bounded, canonical_mantissa, fexp, emin, prec, emax. intros H.
  apply andb_true_iff in H. destruct H as [H1 H2].
  apply Z.eqb_eq in H1. apply Z.leb_le in H2. lia.
Qed.

Lemma bounded_intro m e :
  Z.max (Z.pos (digits2_pos m) + e - 53) (-1074) = e -> e <= 971 ->
  bounded prec emax m e = true.
Proof.
  unfold bounded, canonical_mantissa, fexp, emin, prec, emax. intros H1 H2.
  apply andb_true_iff. split; [apply Z.eqb_eq | apply Z.leb_le]; lia.
Qed.

Lemma iter_xO_value k p : Z.pos (Pos.iter xO p k) = Z.pos p * 2 ^ Z.pos k.
Proof.
  change (Pos.iter xO p k) with (shift_pos k p).
  rewrite shift_pos_correct, Z.pow_pos_fold. lia.
Qed.

(** The rounding of [m * 2^52] at exponent [e - 42] when the target exponent
    is [e + 10 - j]: the low [52 - j] bits, all zero, are shifted out. *)
Lemma round_shifted m e (j : positive) :
  Z.pos j <= 10 ->
  Z.max (Z.pos (digits2_pos m) + e + 10 - 53) (-1074) = e + 10 - Z.pos j ->
  e + 10 - Z.pos j <= 971 ->
  binary_round_aux prec emax false (Z.pos (Pos.iter xO m 52)) (e + -42)
    loc_Exact
  = S754_finite false (Pos.iter xO m j) (e + 10 - Z.pos j).
Proof.
  intros Hj Ht Hb.
  unfold binary_round_aux, shr_fexp, Zdigits2, fexp, emin, prec, emax.
  rewrite digits2_shift.
  destruct (52 - Z.pos j) as [|k|k] eqn:Ek; try lia.
  replace (Z.max (Z.pos (digits2_pos m + 52) + (e + -42) - 53)
             (3 - 1024 - 53) - (e + -42)) with (Z.pos k) by lia.
  cbn [shr shr_record_of_loc].
  replace 52%positive with (k + j)%positive by lia.
  rewrite Pos.iter_add, shr_shift.
  cbn [shr_m loc_of_shr_record round_nearest_even].
  rewrite digits2_shift.
  replace (Z.max (Z.pos (digits2_pos m + j) + (e + -42 + Z.pos k) - 53)
             (3 - 1024 - 53) - (e + -42 + Z.pos k)) with 0 by lia.
  cbn [shr shr_m].
  replace (e + -42 + Z.pos k) with (e + 10 - Z.pos j) by lia.
  destruct (Z.leb_spec (e + 10 - Z.pos j) (1024 - 53)); [reflexivity | lia].
Qed.

(** Multiplying a binary64 number by 1024 is exact, subnormal numbers
    included, as long as the exponent stays in range. *)
Lemma mul_1024_exact m e :
  bounded prec emax m e = true -> e <= 900 ->
  exists m' e',
    mul (S754_finite false m e) (of_Z 1024) = S754_finite false m' e' /\
    bounded prec emax m' e' = true /\
    Z.pos m' * 2 ^ (e' + 1074) = Z.pos m * 2 ^ (e + 1074) * 1024.
Proof.
  intros Hb He. apply bounded_inv in Hb. destruct Hb as [Hc _].
  rewrite of_Z_1024. unfold mul, SFmul. cbn [xorb].
  replace (m * 4503599627370496)%positive with (Pos.iter xO m 52).
  2:{ apply Pos2Z.inj. rewrite iter_xO_value, Pos2Z.inj_mul.
      change (2 ^ 52) with 4503599627370496. lia. }
  pose proof (digits2_bounds m) as _.
  destruct (Z.eq_dec (Z.max (Z.pos (digits2_pos m) + e + 10 - 53) (-1074))
              (e + 10)) as [Efull|Epart].
  - (* the mantissa moves as a whole *)
    exists m, (e + 10). split; [|split].
    + unfold binary_round_aux, shr_fexp, Zdigits2, fexp, emin, prec, emax.
      rewrite digits2_shift.
      replace (Z.max (Z.pos (digits2_pos m + 52) + (e + -42) - 53)
                 (3 - 1024 - 53) - (e + -42)) with 52 by lia.
      cbn [shr shr_record_of_loc]. rewrite shr_shift.
      cbn [shr_m loc_of_shr_record round_nearest_even].
      replace (Z.max (Z.pos (digits2_pos m) + (e + -42 + 52) - 53)
                 (3 - 1024 - 53) - (e + -42 + 52)) with 0 by lia.
      cbn [shr shr_m].
      replace (e + -42 + 52) with (e + 10) by lia.
      destruct (Z.leb_spec (e + 10) (1024 - 53)); [reflexivity | lia].
    + apply bounded_intro; lia.
    + replace (e + 10 + 1074) with (e + 1074 + 10) by lia.
      rewrite Z.pow_add_r by lia. change (2 ^ 10) with 1024. lia.
  - (* a subnormal number: part of the factor goes to the mantissa *)
    assert (He' : e = -1074) by lia.
    destruct (e + 10 - Z.max (Z.pos (digits2_pos m) + e + 10 - 53) (-1074))
      as [|j|j] eqn:Ej; try lia.
    exists (Pos.iter xO m j), (e + 10 - Z.pos j). split; [|split].
    + apply round_shifted; lia.
    + apply bounded_intro; [rewrite digits2_shift|]; lia.
    + rewrite iter_xO_value.
      replace (e + 1074) with 0 by lia.
      replace (e + 10 - Z.pos j + 1074) with (10 - Z.pos j) by lia.
      change (2 ^ 0) with 1.
      replace 1024 with (2 ^ Z.pos j * 2 ^ (10 - Z.pos j)).
      * lia.
      * rewrite <- Z.pow_add_r by lia.
        replace (Z.pos j + (10 - Z.pos j)) with 10 by lia. reflexivity.
Qed.

(** The cast of a non-negative binary64 number to [uint64_t] rounds its
    value down. *)
Lemma to_uint64_floor m e :
  -1074 <= e -> Z.pos m * 2 ^ (e + 1074) / 2 ^ 1074 < 2 ^ 64 ->
  to_uint64 (S754_finite false m e)
  = Some (Z.pos m * 2 ^ (e + 1074) / 2 ^ 1074).
Proof.
  intros He Hlt. unfold to_uint64.
  assert (Ht : (if 0 <=? e then Z.pos m * 2 ^ e else Z.pos m / 2 ^ (- e))
               = Z.pos m * 2 ^ (e + 1074) / 2 ^ 1074).
  { destruct (Z.leb_spec 0 e).
    - rewrite Z.pow_add_r by lia. rewrite Z.mul_assoc, Z.div_mul; [reflexivity|].
      apply Z.pow_nonzero; lia.
    - replace (2 ^ 1074) with (2 ^ (- e) * 2 ^ (e + 1074)).
      + rewrite Z.div_mul_cancel_r; [reflexivity| |];
          apply Z.pow_nonzero; lia.
      + rewrite <- Z.pow_add_r by lia. f_equal. lia. }
  cbv zeta. rewrite Ht.
  destruct (Z.ltb_spec (Z.pos m * 2 ^ (e + 1074) / 2 ^ 1074) (2 ^ 64));
    [reflexivity | lia].
Qed.

Lemma scaled_floor m e n :
  bounded prec emax m e = true -> (n <= 4)%nat ->
  Z.pos m * 2 ^ (e + 1074) * 1024 ^ Z.of_nat n / 2 ^ 1074 < 2 ^ 64 ->
  to_uint64 (Nat.iter n (fun y => mul y (of_Z 1024)) (S754_finite false m e))
  = Some (Z.pos m * 2 ^ (e + 1074) * 1024 ^ Z.of_nat n / 2 ^ 1074).
Proof.
  intros Hb Hn Hlt.
  pose proof (bounded_inv m e Hb) as [Hc _].
  assert (H2 : 0 < 2 ^ 1074) by (apply Z.pow_pos_nonneg; lia).
  assert (Hx : Z.pos m * 2 ^ (e + 1074) * 1024 ^ Z.of_nat n < 2 ^ 1138).
  { change (2 ^ 1138) with (2 ^ 1074 * 2 ^ 64).
    pose proof (Z.mul_succ_div_gt
                  (Z.pos m * 2 ^ (e + 1074) * 1024 ^ Z.of_nat n) (2 ^ 1074) H2)
      as Hd.
    eapply Z.lt_le_trans; [exact Hd|].
    apply Z.mul_le_mono_nonneg_l; lia. }
  assert (G : forall k, (k <= n)%nat ->
            exists m' e',
              Nat.iter k (fun y => mul y (of_Z 1024)) (S754_finite false m e)
              = S754_finite false m' e' /\
              bounded prec emax m' e' = true /\
              Z.pos m' * 2 ^ (e' + 1074)
              = Z.pos m * 2 ^ (e + 1074) * 1024 ^ Z.of_nat k).
  { induction k as [|k IH]; intros Hk.
    - exists m, e. cbn [Nat.iter]. change (Z.of_nat 0) with 0.
      rewrite Z.pow_0_r. repeat split; [exact Hb | lia].
    - destruct IH as (m' & e' & Hi & Hb' & Hv'); [lia|].
      pose proof (bounded_inv m' e' Hb') as [Hc' _].
      assert (He' : e' <= 900).
      { assert (Hm : 0 < Z.pos m * 2 ^ (e + 1074))
          by (apply Z.mul_pos_pos; [lia | apply Z.pow_pos_nonneg; lia]).
        assert (Hle : 1024 ^ Z.of_nat k <= 1024 ^ Z.of_nat n)
          by (apply Z.pow_le_mono_r; lia).
        assert (Hp : 2 ^ (e' + 1074) < 2 ^ 1138).
        { assert (0 < 2 ^ (e' + 1074)) by (apply Z.pow_pos_nonneg; lia).
          nia. }
        apply Z.pow_lt_mono_r_iff in Hp; lia. }
      destruct (mul_1024_exact m' e' Hb' He') as (m'' & e'' & Hm & Hb'' & Hv'').
      exists m'', e''. rewrite Nat.iter_succ, Hi. repeat split;
        [exact Hm | exact Hb'' |].
      rewrite Hv'', Hv', Nat2Z.inj_succ, Z.pow_succ_r by lia. lia. }
  destruct (G n (Nat.le_refl n)) as (m' & e' & Hi & Hb' & Hv').
  pose proof (bounded_inv m' e' Hb') as [Hc' _].
  rewrite Hi, <- Hv'. apply to_uint64_floor; [lia | rewrite Hv'; exact Hlt].
Qed.

Lemma scaled_signed_zero s n :
  to_uint64 (Nat.iter n (fun y => mul y (of_Z 1024)) (S754_zero s)) = Some 0.
Proof.
  assert (G : Nat.iter n (fun y => mul y (of_Z 1024)) (S754_zero s)
              = S754_zero s).
  { induction n as [|n IH]; [reflexivity|].
    rewrite Nat.iter_succ, IH. destruct s; reflexivity. }
  rewrite G. reflexivity.
Qed.

(** The value [n / 2^j], scaled [k] times by 1024 in [double] and cast. *)
Lemma scaled_holds x n j k :
  holds x n j -> (k <= 4)%nat ->
  n * 1024 ^ Z.of_nat k / 2 ^ j < 2 ^ 64 ->
  to_uint64 (Nat.iter k (fun y => mul y (of_Z 1024)) x)
  = Some (n * 1024 ^ Z.of_nat k / 2 ^ j).
Proof.
  intros (Hn & Hj & Hvalid & Hx) Hk Hlt.
  destruct x as [s|s| |[|] m e]; try contradiction.
  - subst n. rewrite scaled_signed_zero, Z.mul_0_l, Z.div_0_l; [reflexivity|].
    apply Z.pow_nonzero; lia.
  - cbn [valid_binary] in Hvalid.
    assert (E : Z.pos m * 2 ^ (e + 1074) * 1024 ^ Z.of_nat k / 2 ^ 1074
                = n * 1024 ^ Z.of_nat k / 2 ^ j).
    { assert (H1 : 2 ^ 1074 <> 0) by (apply Z.pow_nonzero; lia).
      assert (H2 : 2 ^ j <> 0) by (apply Z.pow_nonzero; lia).
      rewrite <- (Z.div_mul_cancel_r _ (2 ^ 1074) (2 ^ j)) by assumption.
      rewrite <- (Z.div_mul_cancel_l (n * 1024 ^ Z.of_nat k) (2 ^ j)
                    (2 ^ 1074)) by assumption.
      f_equal. lia. }
    rewrite <- E. apply scaled_floor; [exact Hvalid | exact Hk |].
    rewrite E. exact Hlt.
Qed.

(** Integers below 2^53 are binary64 numbers. *)
Lemma of_Z_holds v : 0 <= v < 2 ^ 53 -> holds (of_Z v) v 0.
Proof.
  intros Hv. destruct (Z.eq_dec v 0) as [->|Hnz].
  - repeat split; lia.
  - destruct (of_Z_represents v ltac:(lia)) as (m & e & -> & Hd & He & Hm).
    repeat split; try lia.
    + cbn [valid_binary]. apply bounded_intro; lia.
    + rewrite Z.pow_0_r, Z.mul_1_r.
      replace (e + 1074) with (e + 52 + 1022) by lia.
      rewrite Z.pow_add_r by lia.
      change (2 ^ 1074) with (2 ^ 52 * 2 ^ 1022). lia.
Qed.

(** *** Decimal numerals read by [strtoull] *)

Lemma digit_value_char d :
  0 <= d < 10 -> digit_value (digit_char d) = Some d.
Proof.
  intros H. assert (C : d = 0 \/ d = 1 \/ d = 2 \/ d = 3 \/ d = 4 \/ d = 5 \/
                        d = 6 \/ d = 7 \/ d = 8 \/ d = 9) by lia.
  repeat destruct C as [->|C]; try subst d; reflexivity.
Qed.

Lemma decimal_digits_read fuel : forall n acc,
  0 <= n < 2 ^ Z.of_nat fuel -> (1 <= fuel)%nat ->
  exists d : nat, forall a,
    read_digits a (decimal_digits fuel n acc)
    = read_digits (a * 10 ^ Z.of_nat d + n) acc.
Proof.
  induction fuel as [|fuel IH]; intros n acc Hn Hf; [lia|].
  cbn [decimal_digits].
  assert (Hm : 0 <= n mod 10 < 10) by (apply Z.mod_pos_bound; lia).
  pose proof (Z.div_mod n 10 ltac:(lia)) as Hdm.
  destruct (Z.eqb_spec (n / 10) 0) as [E|E].
  - exists 1%nat. intros a. cbn [read_digits].
    rewrite digit_value_char by exact Hm. f_equal.
    change (10 ^ Z.of_nat 1) with 10. lia.
  - assert (Hq : 0 <= n / 10 < 2 ^ Z.of_nat fuel).
    { split; [apply Z.div_pos; lia|].
      apply Z.div_lt_upper_bound; [lia|].
      rewrite Nat2Z.inj_succ, Z.pow_succ_r in Hn by lia. lia. }
    destruct fuel as [|fuel'].
    { exfalso. simpl in Hq. apply E. lia. }
    destruct (IH (n / 10) (String (digit_char (n mod 10)) acc) Hq ltac:(lia))
      as [d Hd].
    exists (S d). intros a. rewrite Hd. cbn [read_digits].
    rewrite digit_value_char by exact Hm. f_equal.
    rewrite Nat2Z.inj_succ, Z.pow_succ_r by lia. lia.
Qed.

Lemma decimal_digits_head fuel : forall n acc,
  0 <= n ->
  exists c rest, decimal_digits (S fuel) n acc = String c rest /\
                 digit_value c <> None.
Proof.
  induction fuel as [|fuel IH]; intros n acc Hn.
  - assert (Hm : 0 <= n mod 10 < 10) by (apply Z.mod_pos_bound; lia).
    exists (digit_char (n mod 10)), acc. split.
    + cbn [decimal_digits]. destruct (n / 10 =? 0); reflexivity.
    + rewrite digit_value_char by exact Hm. discriminate.
  - assert (Hm : 0 <= n mod 10 < 10) by (apply Z.mod_pos_bound; lia).
    change (decimal_digits (S (S fuel)) n acc) with
      (let acc' := String (digit_char (n mod 10)) acc in
       if n / 10 =? 0 then acc' else decimal_digits (S fuel) (n / 10) acc').
    cbv zeta. destruct (n / 10 =? 0).
    + exists (digit_char (n mod 10)), acc. split; [reflexivity|].
      rewrite digit_value_char by exact Hm. discriminate.
    + apply IH. apply Z.div_pos; lia.
Qed.

Lemma digit_not_space d : digit_value d <> None -> isspace d = false.
Proof.
  intros Hd. unfold digit_value in Hd. unfold isspace.
  destruct ((48 <=? Z.of_nat (nat_of_ascii d))
            && (Z.of_nat (nat_of_ascii d) <=? 57)) eqn:E; [|congruence].
  apply andb_true_iff in E. destruct E as [E1 E2].
  apply Z.leb_le in E1.
  apply orb_false_iff. split.
  - apply Z.eqb_neq. lia.
  - apply andb_false_iff. right. apply Z.leb_gt. lia.
Qed.

Lemma strtoull_of_digits d rest :
  digit_value d <> None ->
  strtoull (String d rest)
  = if ULLONG_MAX <? read_digits 0 (String d rest) then ULLONG_MAX
    else read_digits 0 (String d rest).
Proof.
  intros Hd. unfold strtoull.
  cbn [skip_spaces]. rewrite (digit_not_space d Hd).
  assert (E : match String d rest with
              | String "-" rest0 => (true, rest0)
              | String "+" rest0 => (false, rest0)
              | _ => (false, String d rest)
              end = (false, String d rest)).
  { unfold digit_value in Hd.
    destruct d as [[] [] [] [] [] [] [] []]; try reflexivity;
      exfalso; apply Hd; reflexivity. }
  rewrite E. reflexivity.
Qed.

Lemma decimal_read n : 0 <= n -> read_digits 0 (decimal n) = n.
Proof.
  intros Hn. unfold decimal.
  destruct (decimal_digits_read (S (Z.to_nat (Z.log2 n))) n EmptyString)
    as [d Hd].
  - split; [exact Hn|].
    destruct (Z.eq_dec n 0) as [->|Hnz]; [simpl; lia|].
    rewrite Nat2Z.inj_succ, Z2Nat.id by apply Z.log2_nonneg.
    apply Z.log2_spec. lia.
  - lia.
  - rewrite Hd. reflexivity.
Qed.

(** A byte count written in decimal is read at its value, up to
    [ULLONG_MAX]. *)
Lemma size_argument_decimal n :
  0 <= n -> size_argument (decimal n) = Z.min n ULLONG_MAX.
Proof.
  intros Hn. unfold size_argument, decimal.
  destruct (decimal_digits_head (Z.to_nat (Z.log2 n)) n EmptyString Hn)
    as (c & rest & Hs & Hc).
  rewrite Hs, strtoull_of_digits by exact Hc. rewrite <- Hs.
  fold (decimal n). rewrite decimal_read by exact Hn.
  destruct (Z.ltb_spec ULLONG_MAX n); lia.
Qed.

Lemma size_argument_decimal_suffix n c rest :
  0 <= n -> digit_value c = None ->
  size_argument (decimal n ++ String c rest)%string = Z.min n ULLONG_MAX.
Proof.
  intros Hn Hc. rewrite <- (size_argument_decimal n Hn). unfold decimal.
  destruct (decimal_digits_head (Z.to_nat (Z.log2 n)) n EmptyString Hn)
    as (c0 & rest0 & Hs & Hc0).
  rewrite Hs. apply size_argument_ignores_suffix; assumption.
Qed.

(** *** The sizes of the forensic archiver *)

Lemma parse_size_scaled strtod size_str x endptr n j :
  strtod size_str = (x, endptr) -> holds x n j ->
  n * multiplier_at endptr / 2 ^ j < 2 ^ 64 ->
  parse_size strtod size_str = Some (n * multiplier_at endptr / 2 ^ j).
Proof.
  intros Hs Hx Hlt. unfold parse_size. rewrite Hs.
  pose proof (fun k => scaled_holds x n j k Hx) as Hscale.
  assert (Hbare : n * 1 / 2 ^ j < 2 ^ 64 ->
                  to_uint64 x = Some (n * 1 / 2 ^ j)).
  { intros Hb. apply (Hscale 0%nat); [lia | exact Hb]. }
  destruct endptr as [|unit rest]; cbn [multiplier_at] in *.
  - apply Hbare. exact Hlt.
  - unfold multiplier in *.
    destruct (is_unit "k" "K" unit).
    { apply (Hscale 1%nat); [lia | exact Hlt]. }
    destruct (is_unit "m" "M" unit).
    { apply (Hscale 2%nat); [lia | exact Hlt]. }
    destruct (is_unit "g" "G" unit).
    { apply (Hscale 3%nat); [lia | exact Hlt]. }
    destruct (is_unit "t" "T" unit).
    { apply (Hscale 4%nat); [lia | exact Hlt]. }
    apply Hbare. exact Hlt.
Qed.

(** A character that is none of the eight unit letters leaves the number as
    it is. *)
Lemma multiplier_at_other unit rest :
  ~ In unit ["k"%char; "K"%char; "m"%char; "M"%char;
             "g"%char; "G"%char; "t"%char; "T"%char] ->
  multiplier_at (String unit rest) = 1.
Proof.
  intros H. cbn [multiplier_at]. unfold multiplier, is_unit.
  repeat match goal with
         | |- context [Ascii.eqb unit ?c] =>
             destruct (Ascii.eqb_spec unit c) as [E|_];
             [exfalso; apply H; rewrite E; simpl; tauto|]
         end.
  reflexivity.
Qed.

(** Every [double] that is a number and not negative is such a fraction. *)
Lemma holds_every_double x :
  valid_binary prec emax x = true ->
  SFltb x (S754_zero false) = false -> x <> S754_nan ->
  x <> S754_infinity false ->
  exists n j, holds x n j.
Proof.
  intros Hvalid Hsign Hnan Hinf.
  destruct x as [s|[|]| |[|] m e]; try congruence; try discriminate.
  - exists 0, 0. repeat split; lia.
  - exists (Z.pos m * 2 ^ (e + 1074)), 1074.
    cbn [valid_binary] in Hvalid.
    split; [|split; [lia | split; [exact Hvalid | reflexivity]]].
    apply Z.mul_nonneg_nonneg; [lia | apply Z.pow_nonneg; lia].
Qed.

(** C6, as amended. In the forensic archiver, [parse_size] reads a size with
    the suffixes k, m, g, t in either case as binary multiples. For every
    non-negative value [v] that [strtod] returns for the number, which as a
    [double] is a fraction [n / 2^j], the result is [v] times 1024, 1024^2,
    1024^3 or 1024^4, and [v] itself without a unit or before any other
    character, rounded down to a whole number of bytes, when that is below
    2^64. Every integer below 2^53 is
    such a value, so for these the result is the product itself. In
    stream_compress the size arguments are read by [strtoull] in base 10:
    a byte count written in decimal is read at its value, up to 2^64 - 1, and
    what follows the digits is ignored, a unit letter included. *)
Theorem parse_size_binary_multiples :
  (forall (strtod : string -> double * string) size_str v endptr,
     strtod size_str = (of_Z v, endptr) ->
     0 <= v < 2 ^ 53 -> v * multiplier_at endptr < 2 ^ 64 ->
     parse_size strtod size_str = Some (v * multiplier_at endptr)) /\
  (forall (strtod : string -> double * string) size_str x endptr n j,
     strtod size_str = (x, endptr) -> holds x n j ->
     n * multiplier_at endptr / 2 ^ j < 2 ^ 64 ->
     parse_size strtod size_str = Some (n * multiplier_at endptr / 2 ^ j)) /\
  (forall v, 0 <= v < 2 ^ 53 -> holds (of_Z v) v 0) /\
  (forall x, valid_binary prec emax x = true ->
     SFltb x (S754_zero false) = false -> x <> S754_nan ->
     x <> S754_infinity false ->
     exists n j, holds x n j) /\
  (forall rest, multiplier_at "" = 1 /\
     multiplier_at (String "k" rest) = 1024 /\
     multiplier_at (String "K" rest) = 1024 /\
     multiplier_at (String "m" rest) = 1024 * 1024 /\
     multiplier_at (String "M" rest) = 1024 * 1024 /\
     multiplier_at (String "g" rest) = 1024 * 1024 * 1024 /\
     multiplier_at (String "G" rest) = 1024 * 1024 * 1024 /\
     multiplier_at (String "t" rest) = 1024 * 1024 * 1024 * 1024 /\
     multiplier_at (String "T" rest) = 1024 * 1024 * 1024 * 1024) /\
  (forall unit rest,
     ~ In unit ["k"%char; "K"%char; "m"%char; "M"%char;
                "g"%char; "G"%char; "t"%char; "T"%char] ->
     multiplier_at (String unit rest) = 1) /\
  (forall d ds c rest,
     digit_value d <> None -> digit_value c = None ->
     size_argument (String d ds ++ String c rest)%string
     = size_argument (String d ds)) /\
  (forall n, 0 <= n ->
     size_argument (decimal n) = Z.min n ULLONG_MAX /\
     forall c rest, digit_value c = None ->
       size_argument (decimal n ++ String c rest)%string
       = Z.min n ULLONG_MAX).
Proof.
  split; [|split; [|split; [|split; [|split; [|split; [|split]]]]]].
  - intros strtod size_str v endptr Hs Hv Hlt.
    rewrite (parse_size_scaled strtod size_str (of_Z v) endptr v 0 Hs).
    + rewrite Z.pow_0_r, Z.div_1_r. reflexivity.
    + apply of_Z_holds. exact Hv.
    + rewrite Z.pow_0_r, Z.div_1_r. exact Hlt.
  - exact parse_size_scaled.
  - exact of_Z_holds.
  - exact holds_every_double.
  - intros rest. repeat split; reflexivity.
  - exact multiplier_at_other.
  - apply size_argument_ignores_suffix.
  - intros n Hn. split.
    + apply size_argument_decimal. exact Hn.
    + intros c rest Hc. apply size_argument_decimal_suffix; assumption.
Qed.

Lemma parse_size_binary_multiples_witness :
  (strtod_decimal "4g" = (of_Z 4, "g") /\ 0 <= 4 < 2 ^ 53 /\
   parse_size strtod_decimal "4g" = Some 4294967296) /\
  (strtod_point "1.5g" = (S754_finite false 6755399441055744 (-52), "g") /\
   holds (S754_finite false 6755399441055744 (-52)) 3 1 /\
   parse_size strtod_point "1.5g" = Some 1610612736) /\
  (digit_value "4" <> None /\ digit_value "k" = None /\
   size_argument "4k" = size_argument "4") /\
  (0 <= 4294967296 /\ decimal 4294967296 = "4294967296" /\
   size_argument "4294967296" = 4294967296 /\
   size_argument "4294967296g" = 4294967296).
Proof.
  destruct parse_size_binary_multiples as (Hint & Hfrac & _ & _ & _ & _ & Hsuf & Hdec).
  assert (Hh : holds (S754_finite false 6755399441055744 (-52)) 3 1).
  { unfold holds. repeat split; try lia; vm_compute; reflexivity. }
  split; [|split; [|split]].
  - split; [reflexivity|]. split; [lia|].
    apply (Hint strtod_decimal "4g" 4 "g").
    + reflexivity.
    + lia.
    + vm_compute. reflexivity.
  - split; [vm_compute; reflexivity|]. split; [exact Hh|].
    apply (Hfrac strtod_point "1.5g"
             (S754_finite false 6755399441055744 (-52)) "g" 3 1).
    + vm_compute. reflexivity.
    + exact Hh.
    + vm_compute. reflexivity.
  - split; [discriminate|]. split; [reflexivity|].
    apply (Hsuf "4"%char ""%string "k"%char ""%string).
    + discriminate.
    + reflexivity.
  - split; [lia|]. split; [vm_compute; reflexivity|].
    destruct (Hdec 4294967296 ltac:(lia)) as [H1 H2]. split.
    + exact H1.
    + apply (H2 "g"%char ""%string). reflexivity.
Defined.

(** C6, as stated, fails. The --split and --chunk arguments of
    stream_compress do not take a suffix: "4k" is 4 bytes there. In the
    forensic archiver a bare number of 2^53 + 1 bytes comes out of its
    passage through [double] as 2^53; "0.1k" is 102 bytes, the product
    102.4 of the nearest [double] rounded down; and for "16777216t", which is
    2^64, and "-1k" the cast to [uint64_t] is not defined. *)
Lemma size_suffix_not_everywhere :
  size_argument "4k" = 4 /\ size_argument "4k" <> 4 * 1024 /\
  parse_size strtod_decimal "9007199254740993" = Some 9007199254740992 /\
  parse_size strtod_point "0.1k" = Some 102 /\ 102 * 10 <> 1 * 1024 /\
  parse_size strtod_decimal "16777216t" = None /\
  parse_size strtod_point "-1k" = None.
Proof.
  split; [reflexivity|]. split; [vm_compute; discriminate|].
  repeat split; try (vm_compute; reflexivity); lia.
Qed.

End SizeArguments.

(** ** The encryption subsystem and the chunk pipeline

    [sevenzip_init_encryption], [sevenzip_encrypt_data],
    [sevenzip_init_decryption], [sevenzip_decrypt_data],
    [sevenzip_create_7z_streaming] and [sevenzip_extract_streaming] are called
    by [examples/test_aes.c] and [examples/forensic_archiver.c]; their
    definitions are not among the sources at hand. They are modelled from
    sections 3, 4.1, 4.2 and 4.3 of the specification. The block cipher, the
    key derivation, the random source and the codec are the collaborators the
    specification assumes; they are parameters. *)

Module Streaming.

Abbreviation bytes := (list byte).

#[global] Instance byte_eq_decision : EqDecision byte := Byte.byte_eq_dec.

(** The result of an operation that can fail with one of the conditions of
    the error taxonomy. *)
Inductive outcome (A : Type) :=
| Success (a : A)
| Failure (e : FFI.ErrorCondition).
Arguments Success {A} a.
Arguments Failure {A} e.

Definition BLOCK_SIZE : nat := 16.

Definition byte_xor (a b : byte) : byte :=
  let '(a0, (a1, (a2, (a3, (a4, (a5, (a6, a7))))))) := Byte.to_bits a in
  let '(b0, (b1, (b2, (b3, (b4, (b5, (b6, b7))))))) := Byte.to_bits b in
  Byte.of_bits (xorb a0 b0, (xorb a1 b1, (xorb a2 b2, (xorb a3 b3,
               (xorb a4 b4, (xorb a5 b5, (xorb a6 b6, xorb a7 b7))))))).

Definition xor_block (block mask : bytes) : bytes :=
  zip_with byte_xor block mask.

(** Modelled from the spec: the padding of [sevenzip_encrypt_data], which is
    not in the sources. Section 4.3 asks for padding to a whole number of
    16-byte blocks under a scheme that encodes the pad length; here every pad
    byte holds the pad length, between 1 and 16. *)
Definition pad_length (n : nat) : nat := (BLOCK_SIZE - n mod BLOCK_SIZE)%nat.

Definition pad_byte (n : nat) : byte := default x00 (Byte.of_nat n).

Definition pad (plaintext : bytes) : bytes :=
  let n := pad_length (length plaintext) in
  plaintext ++ replicate n (pad_byte n).

(** Modelled from the spec: the padding check of [sevenzip_decrypt_data],
    which is not in the sources. Padding that is structurally invalid is the
    WrongPasswordOrCorrupt error of section 4.3. *)
Definition unpad (data : bytes) : outcome bytes :=
  match last data with
  | None => Failure FFI.WrongPasswordOrCorrupt
  | Some b =>
      let n := Byte.to_nat b in
      if bool_decide ((1 <= n <= BLOCK_SIZE)%nat /\ (n <= length data)%nat /\
                      drop (length data - n) data = replicate n b)
      then Success (take (length data - n) data)
      else Failure FFI.WrongPasswordOrCorrupt
  end.

(** The first [k] blocks of [data]. *)
Fixpoint split_blocks (k : nat) (data : bytes) : list bytes :=
  match k with
  | O => []
  | S k' => take BLOCK_SIZE data :: split_blocks k' (drop BLOCK_SIZE data)
  end.

Definition blocks_of (data : bytes) : list bytes :=
  split_blocks (length data / BLOCK_SIZE) data.

(** The input files of a job and the files an extraction writes. *)
Record File := mkFile { path : string; content : bytes }.

(** Modelled from the spec: the Chunk of section 3, as it is written to a
    volume: sequence number, source file index and the compressed, possibly
    encrypted, bytes. *)
Record Chunk := mkChunk { seq_no : nat; file_index : nat; data : bytes }.

(** Modelled from the spec: what an archive holds, the container format
    being out of the specification's scope: the file descriptors (path and
    size) of the job, the salt and the base IV when the job has a password,
    and the volumes in order, each a sequence of whole chunks. *)
Record Archive := mkArchive {
  descriptors : list (string * nat);
  encryption : option (bytes * bytes);
  volumes : list (list Chunk)
}.

(** [SevenZipStreamOptions] with the fields the two command lines set. *)
Record SevenZipStreamOptions := mkStreamOptions {
  chunk_size : nat;
  split_size : nat;
  num_threads : Z;
  temp_dir : option string;
  password : option string
}.

(** Modelled from the spec: the reader of section 4.1 cuts a file into
    chunks of [size] bytes in offset order. [fuel] bounds the number of
    chunks; the length of the file is enough when [size] is positive. *)
Fixpoint chunks_of (fuel size : nat) (raw : bytes) : list bytes :=
  match fuel with
  | O => []
  | S fuel' =>
      match raw with
      | [] => []
      | _ => take size raw :: chunks_of fuel' size (drop size raw)
      end
  end.

(** Modelled from the spec: chunks are read in file-list order, each with
    the index of its file, the first file having index [i]. *)
Fixpoint read_from (size i : nat) (files : list File) : list (nat * bytes) :=
  match files with
  | [] => []
  | f :: rest =>
      map (pair i) (chunks_of (length (content f)) size (content f))
      ++ read_from size (S i) rest
  end.

(** Modelled from the spec: every chunk gets a sequence number one greater
    than the previous one. *)
Fixpoint number (n : nat) (chunks : list (nat * bytes))
    : list (nat * (nat * bytes)) :=
  match chunks with
  | [] => []
  | c :: rest => (n, c) :: number (S n) rest
  end.

(** Modelled from the spec: the Volume Manager of section 4.2. A chunk that
    would take the open volume past the split size closes it and goes whole
    into the next volume; a split size of 0 means one volume. *)
Fixpoint place (split : nat) (current : list Chunk) (used : nat)
    (pending : list Chunk) : list (list Chunk) :=
  match pending with
  | [] => [current]
  | c :: rest =>
      if (0 <? split)%nat && (split <? used + length (data c))%nat
      then current :: place split [c] (length (data c)) rest
      else place split (current ++ [c]) (used + length (data c)) rest
  end.

(** Modelled from the spec: the extractor gives every file of the archive
    the bytes of the chunks that carry its index, in order. *)
Fixpoint rebuild_from (i : nat) (names : list (string * nat))
    (decoded : list (nat * bytes)) : list File :=
  match names with
  | [] => []
  | (p, _) :: rest =>
      {| path := p;
         content := concat (map snd (filter (fun d => fst d = i) decoded)) |}
      :: rebuild_from (S i) rest decoded
  end.

Section Collaborators.

(** The block cipher with its expanded key schedule, the key derivation from
    password and salt to key and IV, the random source, the codec, and the
    derivation of the IV of chunk [n] from the base IV. *)
Variable CipherContext : Type.
Variable expand_key : bytes -> CipherContext.
Variables encrypt_block decrypt_block : CipherContext -> bytes -> bytes.
Variable derive : string -> bytes -> bytes * bytes.
Variable Rng : Type.
Variable random_bytes : nat -> Rng -> bytes * Rng.
Variable codec_compress : Z -> bytes -> bytes.
Variable codec_decompress : bytes -> option bytes.
Variable chunk_iv : bytes -> nat -> bytes.

(** Modelled from the spec: block-by-block encryption under an IV, which
    [sevenzip_encrypt_data] performs outside the sources. The chaining is
    that of CBC, the mode of the 7z AES coder. *)
Fixpoint cbc_encrypt (ctx : CipherContext) (prev : bytes)
    (blocks : list bytes) : list bytes :=
  match blocks with
  | [] => []
  | b :: rest =>
      let c := encrypt_block ctx (xor_block b prev) in
      c :: cbc_encrypt ctx c rest
  end.

Fixpoint cbc_decrypt (ctx : CipherContext) (prev : bytes)
    (blocks : list bytes) : list bytes :=
  match blocks with
  | [] => []
  | c :: rest => xor_block (decrypt_block ctx c) prev :: cbc_decrypt ctx c rest
  end.

(** Modelled from the spec: [sevenzip_encrypt_data], missing from the
    sources: pad, then encrypt block by block. *)
Definition sevenzip_encrypt_data (ctx : CipherContext) (iv plaintext : bytes)
    : bytes :=
  concat (cbc_encrypt ctx iv (blocks_of (pad plaintext))).

(** Modelled from the spec: [sevenzip_decrypt_data], missing from the
    sources: decrypt block by block, then validate and strip the padding. *)
Definition sevenzip_decrypt_data (ctx : CipherContext) (iv ciphertext : bytes)
    : outcome bytes :=
  if bool_decide ((length ciphertext mod BLOCK_SIZE)%nat = 0%nat)
  then unpad (concat (cbc_decrypt ctx iv (blocks_of ciphertext)))
  else Failure FFI.WrongPasswordOrCorrupt.

(** Modelled from the spec: [sevenzip_init_encryption], missing from the
    sources: a fresh random 16-byte salt, key and IV derived from password
    and salt, and the expanded key. *)
Definition sevenzip_init_encryption (password : string) (rng : Rng)
    : bytes * bytes * bytes * CipherContext * Rng :=
  let (salt, rng') := random_bytes 16 rng in
  let (key, iv) := derive password salt in
  (key, iv, salt, expand_key key, rng').

(** Modelled from the spec: [sevenzip_init_decryption], missing from the
    sources: the same derivation from the password and the stored salt. *)
Definition sevenzip_init_decryption (password : string) (salt : bytes)
    : bytes * CipherContext :=
  let (key, _) := derive password salt in
  (key, expand_key key).

(** Modelled from the spec: a worker compresses the chunk with the codec,
    and with a password the compressed bytes are encrypted under the IV of
    the chunk's sequence number. *)
Definition encode_chunk (level : Z) (enc : option (CipherContext * bytes))
    (c : nat * (nat * bytes)) : Chunk :=
  let '(n, (i, raw)) := c in
  let compressed := codec_compress level raw in
  {| seq_no := n; file_index := i;
     data := match enc with
             | Some (ctx, iv) =>
                 sevenzip_encrypt_data ctx (chunk_iv iv n) compressed
             | None => compressed
             end |}.

(** Modelled from the spec: [sevenzip_create_7z_streaming], missing from the
    sources: read, compress, encrypt and place the chunks in sequence
    order. The writer's reordering by sequence number makes the output
    independent of the worker count, which therefore does not appear. *)
Definition sevenzip_create_7z_streaming (input_files : list File) (level : Z)
    (opts : SevenZipStreamOptions) (rng : Rng) : Archive * Rng :=
  let '(enc, header, rng') :=
    match password opts with
    | Some p =>
        let '(key, iv, salt, ctx, r) := sevenzip_init_encryption p rng in
        (Some (ctx, iv), Some (salt, iv), r)
    | None => (None, None, rng)
    end in
  let chunks :=
    map (encode_chunk level enc)
        (number 0 (read_from (chunk_size opts) 0 input_files)) in
  ({| descriptors := map (fun f => (path f, length (content f))) input_files;
      encryption := header;
      volumes := place (split_size opts) [] 0 chunks |}, rng').

(** Modelled from the spec: the inverse of [encode_chunk]; a padding failure
    is WrongPasswordOrCorrupt, a codec failure ExtractFailed. *)
Definition decode_chunk (dec : option (CipherContext * bytes)) (c : Chunk)
    : outcome (nat * bytes) :=
  let payload :=
    match dec with
    | Some (ctx, iv) => sevenzip_decrypt_data ctx (chunk_iv iv (seq_no c)) (data c)
    | None => Success (data c)
    end in
  match payload with
  | Success p =>
      match codec_decompress p with
      | Some raw => Success (file_index c, raw)
      | None => Failure FFI.ExtractFailed
      end
  | Failure e => Failure e
  end.

Fixpoint decode_all (dec : option (CipherContext * bytes))
    (chunks : list Chunk) : outcome (list (nat * bytes)) :=
  match chunks with
  | [] => Success []
  | c :: rest =>
      match decode_chunk dec c with
      | Success d =>
          match decode_all dec rest with
          | Success ds => Success (d :: ds)
          | Failure e => Failure e
          end
      | Failure e => Failure e
      end
  end.

(** Modelled from the spec: [sevenzip_extract_streaming], missing from the
    sources: the volumes are read in order, every chunk is decrypted with the
    key re-derived from the password and the stored salt, decompressed, and
    given back to its file. An encrypted archive opened without a password
    fails as a wrong password does. *)
Definition sevenzip_extract_streaming (archive : Archive)
    (password : option string) : outcome (list File) :=
  let dec :=
    match encryption archive, password with
    | Some (salt, iv), Some p =>
        let (_, ctx) := sevenzip_init_decryption p salt in
        Success (Some (ctx, iv))
    | Some _, None => Failure FFI.WrongPasswordOrCorrupt
    | None, _ => Success None
    end in
  match dec with
  | Success d =>
      match decode_all d (concat (volumes archive)) with
      | Success decoded =>
          Success (rebuild_from 0 (descriptors archive) decoded)
      | Failure e => Failure e
      end
  | Failure e => Failure e
  end.

(** Whether an encryption context has a base IV of one block. *)
Definition whole_iv (enc : option (CipherContext * bytes)) : Prop :=
  match enc with
  | Some (_, iv) => length iv = BLOCK_SIZE
  | None => True
  end.

(** What the specification assumes of the collaborators: the block cipher
    decrypts what it encrypts and keeps the block length, IVs are one block
    long, and the codec decompresses what it compresses. *)
Hypothesis decrypt_encrypt_block : forall ctx b,
  length b = BLOCK_SIZE -> decrypt_block ctx (encrypt_block ctx b) = b.
Hypothesis encrypt_block_length : forall ctx b,
  length b = BLOCK_SIZE -> length (encrypt_block ctx b) = BLOCK_SIZE.
Hypothesis derive_iv_length : forall password salt,
  length (snd (derive password salt)) = BLOCK_SIZE.
Hypothesis chunk_iv_length : forall iv n,
  length iv = BLOCK_SIZE -> length (chunk_iv iv n) = BLOCK_SIZE.
Hypothesis codec_round_trip : forall level raw,
  codec_decompress (codec_compress level raw) = Some raw.

(** *** Round trips *)

Lemma byte_xor_cancel a b : byte_xor (byte_xor a b) b = a.
Proof.
  unfold byte_xor.
  destruct (Byte.to_bits a) as (a0 & a1 & a2 & a3 & a4 & a5 & a6 & a7) eqn:Ea.
  destruct (Byte.to_bits b) as (b0 & b1 & b2 & b3 & b4 & b5 & b6 & b7) eqn:Eb.
  rewrite Byte.to_bits_of_bits.
  rewrite !xorb_assoc, !xorb_nilpotent, !xorb_false_r.
  rewrite <- Ea. apply Byte.of_bits_to_bits.
Qed.

Lemma xor_block_cancel block : forall mask,
  length block = length mask -> xor_block (xor_block block mask) mask = block.
Proof.
  unfold xor_block.
  induction block as [|x block IH]; intros [|m mask] H; simpl in *;
    try discriminate; [reflexivity|].
  rewrite byte_xor_cancel, IH by lia. reflexivity.
Qed.

Lemma xor_block_length block mask :
  length block = length mask -> length (xor_block block mask) = length block.
Proof.
  intros H. unfold xor_block. rewrite length_zip_with. lia.
Qed.

Lemma cbc_encrypt_lengths ctx blocks : forall prev,
  Forall (fun b => length b = BLOCK_SIZE) blocks -> length prev = BLOCK_SIZE ->
  Forall (fun b => length b = BLOCK_SIZE) (cbc_encrypt ctx prev blocks).
Proof.
  induction blocks as [|b rest IH]; intros prev Hb Hp; simpl.
  - constructor.
  - inversion Hb as [|? ? Hb1 Hb2]; subst.
    assert (length (encrypt_block ctx (xor_block b prev)) = BLOCK_SIZE).
    { apply encrypt_block_length. rewrite xor_block_length; congruence. }
    constructor; [assumption|]. apply IH; assumption.
Qed.

Lemma cbc_round_trip ctx blocks : forall prev,
  Forall (fun b => length b = BLOCK_SIZE) blocks -> length prev = BLOCK_SIZE ->
  cbc_decrypt ctx prev (cbc_encrypt ctx prev blocks) = blocks.
Proof.
  induction blocks as [|b rest IH]; intros prev Hb Hp; simpl.
  - reflexivity.
  - inversion Hb as [|? ? Hb1 Hb2]; subst.
    assert (Hx : length (xor_block b prev) = BLOCK_SIZE)
      by (rewrite xor_block_length; congruence).
    rewrite decrypt_encrypt_block by exact Hx.
    rewrite xor_block_cancel by congruence.
    rewrite IH; [reflexivity | assumption |].
    apply encrypt_block_length. exact Hx.
Qed.

Lemma split_blocks_concat blocks :
  Forall (fun b => length b = BLOCK_SIZE) blocks ->
  split_blocks (length blocks) (concat blocks) = blocks.
Proof.
  induction 1 as [|b rest Hb _ IH]; simpl; [reflexivity|].
  rewrite <- Hb at 1. rewrite take_app_length.
  rewrite <- Hb at 1. rewrite drop_app_length, IH. reflexivity.
Qed.

Lemma concat_blocks_length (blocks : list bytes) :
  Forall (fun b => length b = BLOCK_SIZE) blocks ->
  length (concat blocks) = (length blocks * BLOCK_SIZE)%nat.
Proof.
  induction 1 as [|b rest Hb _ IH]; simpl; [reflexivity|].
  rewrite length_app, IH, Hb. reflexivity.
Qed.

Lemma blocks_of_concat blocks :
  Forall (fun b => length b = BLOCK_SIZE) blocks ->
  blocks_of (concat blocks) = blocks.
Proof.
  intros H. unfold blocks_of. rewrite concat_blocks_length by exact H.
  rewrite Nat.div_mul by (unfold BLOCK_SIZE; lia).
  apply split_blocks_concat. exact H.
Qed.

Lemma split_blocks_spec k : forall data,
  length data = (k * BLOCK_SIZE)%nat ->
  concat (split_blocks k data) = data /\
  Forall (fun b => length b = BLOCK_SIZE) (split_blocks k data).
Proof.
  induction k as [|k IH]; intros data H; simpl in *.
  - destruct data; [split; [reflexivity | constructor] | discriminate].
  - destruct (IH (drop BLOCK_SIZE data)) as [IH1 IH2].
    { rewrite length_drop. unfold BLOCK_SIZE in *. lia. }
    split.
    + rewrite IH1. apply take_drop.
    + constructor; [|exact IH2]. rewrite length_take.
      unfold BLOCK_SIZE in *. lia.
Qed.

Lemma blocks_of_spec data :
  (length data mod BLOCK_SIZE)%nat = 0%nat ->
  concat (blocks_of data) = data /\
  Forall (fun b => length b = BLOCK_SIZE) (blocks_of data).
Proof.
  intros H. unfold blocks_of. apply split_blocks_spec.
  pose proof (Nat.div_mod_eq (length data) BLOCK_SIZE). lia.
Qed.

Lemma pad_length_range n : (1 <= pad_length n <= BLOCK_SIZE)%nat.
Proof.
  unfold pad_length.
  pose proof (Nat.mod_upper_bound n BLOCK_SIZE). unfold BLOCK_SIZE in *. lia.
Qed.

Lemma pad_whole_blocks plaintext :
  (length (pad plaintext) mod BLOCK_SIZE)%nat = 0%nat.
Proof.
  unfold pad. rewrite length_app, length_replicate. unfold pad_length.
  pose proof (Nat.div_mod_eq (length plaintext) BLOCK_SIZE) as E.
  pose proof (Nat.mod_upper_bound (length plaintext) BLOCK_SIZE) as B.
  unfold BLOCK_SIZE in *.
  replace (length plaintext + (16 - length plaintext mod 16))%nat
    with ((length plaintext / 16 + 1) * 16)%nat by lia.
  apply Nat.Div0.mod_mul.
Qed.

Lemma pad_byte_value n : (n <= BLOCK_SIZE)%nat -> Byte.to_nat (pad_byte n) = n.
Proof.
  intros H. unfold pad_byte.
  destruct (Byte.of_nat n) as [b|] eqn:E.
  - simpl. apply Byte.to_of_nat. exact E.
  - apply Byte.of_nat_None_iff in E. unfold BLOCK_SIZE in H. lia.
Qed.

Lemma unpad_pad plaintext : unpad (pad plaintext) = Success plaintext.
Proof.
  unfold pad, unpad.
  pose proof (pad_length_range (length plaintext)) as [H1 H16].
  set (n := pad_length (length plaintext)) in *.
  destruct n as [|k] eqn:En; [lia|].
  rewrite replicate_S_end, app_assoc, last_snoc.
  rewrite <- app_assoc, <- replicate_S_end.
  rewrite pad_byte_value by exact H16.
  rewrite length_app, length_replicate.
  replace (length plaintext + S k - S k)%nat with (length plaintext) by lia.
  rewrite drop_app_length, take_app_length.
  rewrite bool_decide_eq_true_2; [reflexivity|].
  repeat split; lia.
Qed.

Lemma chunks_of_concat size : forall fuel raw,
  (0 < size)%nat -> (length raw <= fuel)%nat ->
  concat (chunks_of fuel size raw) = raw.
Proof.
  induction fuel as [|fuel IH]; intros raw Hs Hf; simpl.
  - destruct raw; [reflexivity | simpl in Hf; lia].
  - destruct raw as [|x raw']; [reflexivity|].
    cbn [concat]. rewrite IH.
    + apply take_drop.
    + exact Hs.
    + rewrite length_drop. simpl in *. lia.
Qed.

Lemma place_concat split pending : forall current used,
  concat (place split current used pending) = current ++ pending.
Proof.
  induction pending as [|c rest IH]; intros current used; simpl.
  - rewrite app_nil_r. reflexivity.
  - destruct ((0 <? split)%nat && (split <? used + length (data c))%nat).
    + simpl. rewrite IH. reflexivity.
    + rewrite IH, <- app_assoc. reflexivity.
Qed.

Lemma decrypt_encrypt_data ctx iv plaintext :
  length iv = BLOCK_SIZE ->
  sevenzip_decrypt_data ctx iv (sevenzip_encrypt_data ctx iv plaintext)
  = Success plaintext.
Proof.
  intros Hiv. unfold sevenzip_decrypt_data, sevenzip_encrypt_data.
  destruct (blocks_of_spec (pad plaintext) (pad_whole_blocks plaintext))
    as [Hc Hf].
  pose proof (cbc_encrypt_lengths ctx _ iv Hf Hiv) as Hl.
  rewrite concat_blocks_length by exact Hl.
  rewrite Nat.Div0.mod_mul, bool_decide_eq_true_2 by reflexivity.
  rewrite blocks_of_concat by exact Hl.
  rewrite cbc_round_trip by assumption.
  rewrite Hc. apply unpad_pad.
Qed.

Lemma decode_encode_chunk level enc c :
  whole_iv enc ->
  decode_chunk enc (encode_chunk level enc c) = Success (snd c).
Proof.
  intros Hm. destruct c as [n [i raw]]. unfold decode_chunk, encode_chunk.
  cbn [seq_no file_index data snd].
  destruct enc as [[ctx iv]|].
  - rewrite decrypt_encrypt_data by (apply chunk_iv_length; exact Hm).
    rewrite codec_round_trip. reflexivity.
  - rewrite codec_round_trip. reflexivity.
Qed.

Lemma decode_all_encoded level enc cs :
  whole_iv enc ->
  decode_all enc (map (encode_chunk level enc) cs) = Success (map snd cs).
Proof.
  intros Hm. induction cs as [|c cs IH]; simpl; [reflexivity|].
  rewrite decode_encode_chunk by exact Hm. rewrite IH. reflexivity.
Qed.

Lemma number_snd cs : forall n, map snd (number n cs) = cs.
Proof.
  induction cs as [|c cs IH]; intros n; simpl; [reflexivity|].
  rewrite IH. reflexivity.
Qed.

Lemma read_from_indices size files : forall i d,
  d ∈ read_from size i files -> (i <= fst d)%nat.
Proof.
  induction files as [|f rest IH]; intros i d Hd; simpl in Hd.
  - inversion Hd.
  - apply elem_of_app in Hd. destruct Hd as [Hd|Hd].
    + apply list_elem_of_fmap in Hd. destruct Hd as (raw & -> & _).
      simpl. lia.
    + apply IH in Hd. lia.
Qed.

Lemma filter_none (i : nat) (l : list (nat * bytes)) :
  (forall d, d ∈ l -> fst d <> i) ->
  filter (fun d => fst d = i) l = [].
Proof.
  induction l as [|d l IH]; intros H; [reflexivity|].
  rewrite filter_cons_False.
  - apply IH. intros d' Hd'. apply H. apply list_elem_of_further. exact Hd'.
  - apply H. apply list_elem_of_here.
Qed.

Lemma filter_own (i : nat) (raws : list bytes) :
  filter (fun d => fst d = i) (map (pair i) raws) = map (pair i) raws.
Proof.
  induction raws as [|r raws IH]; [reflexivity|].
  simpl. rewrite filter_cons_True by reflexivity. rewrite IH. reflexivity.
Qed.

Lemma rebuild_read size files : forall i before,
  (0 < size)%nat ->
  (forall d, d ∈ before -> (fst d < i)%nat) ->
  rebuild_from i (map (fun f => (path f, length (content f))) files)
    (before ++ read_from size i files) = files.
Proof.
  induction files as [|f rest IH]; intros i before Hs Hb; [reflexivity|].
  cbn [map rebuild_from read_from].
  set (own := map (pair i) (chunks_of (length (content f)) size (content f))).
  f_equal.
  - rewrite !filter_app.
    rewrite (filter_none i before)
      by (intros d Hd; apply Hb in Hd; lia).
    rewrite (filter_none i (read_from size (S i) rest))
      by (intros d Hd; apply read_from_indices in Hd; lia).
    unfold own. rewrite filter_own, app_nil_r. cbn [app].
    rewrite map_map. cbn [snd]. rewrite map_id.
    rewrite chunks_of_concat by (try exact Hs; lia).
    destruct f; reflexivity.
  - rewrite app_assoc. apply IH; [exact Hs|].
    intros d Hd. apply elem_of_app in Hd. destruct Hd as [Hd|Hd].
    + apply Hb in Hd. lia.
    + unfold own in Hd. apply list_elem_of_fmap in Hd.
      destruct Hd as (raw & -> & _). simpl. lia.
Qed.


(** C2. The encryption round trip: with the key, IV and salt that
    [sevenzip_init_encryption] produces for a password,
    [sevenzip_init_decryption] on the same password and salt derives the same
    key, and [sevenzip_decrypt_data] under the same IV gives back the
    plaintext that [sevenzip_encrypt_data] encrypted, at its length. *)
Theorem encryption_round_trip :
  forall password rng plaintext key iv salt ctx rng',
    sevenzip_init_encryption password rng = (key, iv, salt, ctx, rng') ->
    exists dec_ctx,
      sevenzip_init_decryption password salt = (key, dec_ctx) /\
      sevenzip_decrypt_data dec_ctx iv (sevenzip_encrypt_data ctx iv plaintext)
      = Success plaintext /\
      (forall out,
         sevenzip_decrypt_data dec_ctx iv
           (sevenzip_encrypt_data ctx iv plaintext) = Success out ->
         out = plaintext /\ length out = length plaintext).
Proof.
  intros password rng plaintext key iv salt ctx rng' Hinit.
  unfold sevenzip_init_encryption in Hinit.
  unfold sevenzip_init_decryption.
  destruct (random_bytes 16 rng) as [salt0 rng0].
  pose proof (derive_iv_length password salt0) as Hiv.
  destruct (derive password salt0) as [key0 iv0] eqn:Ed. simpl in Hiv.
  inversion Hinit; subst. rewrite Ed.
  exists (expand_key key). split; [reflexivity|].
  rewrite decrypt_encrypt_data by exact Hiv.
  split; [reflexivity|]. intros out Hout. inversion Hout. auto.
Qed.

(** C1. The streaming round trip: for every list of input files and every
    password, or none, extracting the archive that the streaming creator
    builds, with the same password, gives the input files back, paths and
    bytes, whatever the level and the split size; the chunk size is
    positive. *)
Theorem streaming_round_trip : forall input_files level opts rng,
  (0 < chunk_size opts)%nat ->
  sevenzip_extract_streaming
    (fst (sevenzip_create_7z_streaming input_files level opts rng))
    (password opts)
  = Success input_files.
Proof.
  intros input_files level opts rng Hs.
  unfold sevenzip_create_7z_streaming, sevenzip_extract_streaming.
  destruct (password opts) as [p|].
  - unfold sevenzip_init_encryption, sevenzip_init_decryption.
    destruct (random_bytes 16 rng) as [salt rng'].
    pose proof (derive_iv_length p salt) as Hiv.
    destruct (derive p salt) as [key iv] eqn:Ed. simpl in Hiv.
    cbn [fst encryption volumes descriptors]. rewrite Ed.
    rewrite place_concat. cbn [app].
    rewrite decode_all_encoded by exact Hiv.
    rewrite number_snd.
    f_equal. apply (rebuild_read _ _ 0%nat []); [exact Hs|].
    intros d Hd. inversion Hd.
  - cbn [fst encryption volumes descriptors].
    rewrite place_concat. cbn [app].
    rewrite decode_all_encoded by exact I.
    rewrite number_snd.
    f_equal. apply (rebuild_read _ _ 0%nat []); [exact Hs|].
    intros d Hd. inversion Hd.
Qed.

End Collaborators.

(** An instance of the collaborators small enough to run: a cipher that
    reverses the block, a derivation that takes the key from the salt, a
    constant random source, a codec that stores. *)
Definition reversal_cipher (ctx : unit) (block : bytes) : bytes := reverse block.
Definition salt_derive (password : string) (salt : bytes) : bytes * bytes :=
  (take 32 (salt ++ replicate 32 x00), replicate 16 x01).
Definition constant_random (n : nat) (rng : nat) : bytes * nat :=
  (replicate n x2a, S rng).
Definition store_compress (level : Z) (raw : bytes) : bytes := raw.
Definition store_decompress (compressed : bytes) : option bytes :=
  Some compressed.
Definition same_iv (iv : bytes) (n : nat) : bytes := iv.

Lemma reversal_cipher_inverse (ctx : unit) (b : bytes) :
  length b = BLOCK_SIZE -> reversal_cipher ctx (reversal_cipher ctx b) = b.
Proof. intros _. apply reverse_involutive. Qed.

Lemma reversal_cipher_length (ctx : unit) (b : bytes) :
  length b = BLOCK_SIZE -> length (reversal_cipher ctx b) = BLOCK_SIZE.
Proof. intros H. unfold reversal_cipher. rewrite length_reverse. exact H. Qed.

Lemma salt_derive_iv_length password salt :
  length (snd (salt_derive password salt)) = BLOCK_SIZE.
Proof. reflexivity. Qed.

Lemma encryption_round_trip_witness :
  sevenzip_init_encryption unit (fun _ => tt) salt_derive nat constant_random
    "TestPassword123!" 0%nat
  = (take 32 (replicate 16 x2a ++ replicate 32 x00), replicate 16 x01,
     replicate 16 x2a, tt, 1%nat) /\
  sevenzip_decrypt_data unit reversal_cipher tt (replicate 16 x01)
    (sevenzip_encrypt_data unit reversal_cipher tt (replicate 16 x01)
       [x54; x68; x69; x73])
  = Success [x54; x68; x69; x73].
Proof.
  split; [reflexivity|].
  destruct (encryption_round_trip unit (fun _ => tt) reversal_cipher
              reversal_cipher salt_derive nat constant_random
              reversal_cipher_inverse reversal_cipher_length
              salt_derive_iv_length "TestPassword123!" 0%nat
              [x54; x68; x69; x73] _ _ _ _ _ eq_refl)
    as (dec_ctx & _ & H & _).
  destruct dec_ctx. exact H.
Defined.

Lemma streaming_round_trip_witness :
  let input_files := [mkFile "a.img" [x01; x02; x03; x04; x05];
                      mkFile "empty" []; mkFile "b.img" [x06]] in
  let opts := {| chunk_size := 2; split_size := 32; num_threads := 2;
                 temp_dir := None; password := Some "secret" |} in
  (0 < chunk_size opts)%nat /\
  sevenzip_extract_streaming unit (fun _ => tt) reversal_cipher salt_derive
    store_decompress same_iv
    (fst (sevenzip_create_7z_streaming unit (fun _ => tt) reversal_cipher
            salt_derive nat constant_random store_compress same_iv
            input_files 5 opts 0%nat))
    (password opts)
  = Success input_files.
Proof.
  intros input_files opts. split; [simpl; lia|].
  apply (streaming_round_trip unit (fun _ => tt) reversal_cipher
           reversal_cipher salt_derive nat constant_random store_compress
           store_decompress same_iv reversal_cipher_inverse
           reversal_cipher_length salt_derive_iv_length).
  - intros iv n H. exact H.
  - reflexivity.
  - simpl. lia.
Defined.

End Streaming.

(** ** Sequences of [sevenzip_init] and [sevenzip_cleanup] *)

Module Lifecycle.
Import FFI.

(** The two lifecycle calls a client makes. *)
Inductive Call := Init | Cleanup.

(** The state before the first call: [static int g_initialized = 0]. *)
Definition loaded : Library := {| g_initialized := 0; events := [] |}.

Section Calls.

Variable SEVENZIP_OK : Z.

Definition call (st : Library) (c : Call) : Library :=
  match c with
  | Init => snd (sevenzip_init SEVENZIP_OK st)
  | Cleanup => sevenzip_cleanup st
  end.

Definition after (calls : list Call) (st : Library) : Library :=
  fold_left call calls st.

(** The [Init] calls of a sequence that find the flag clear. *)
Fixpoint initialisations (calls : list Call) (st : Library) : nat :=
  match calls with
  | [] => 0
  | c :: rest =>
      ((match c with
        | Init => if (g_initialized st =? 0)%Z then 1 else 0
        | Cleanup => 0
        end) + initialisations rest (call st c))%nat
  end.

Lemma call_flag st c :
  g_initialized st = 0 \/ g_initialized st = 1 ->
  g_initialized (call st c) = 0 \/ g_initialized (call st c) = 1.
Proof.
  intros H. destruct c; simpl.
  - unfold sevenzip_init. destruct (Z.eqb_spec (g_initialized st) 0); simpl;
      [right; reflexivity | exact H].
  - unfold sevenzip_cleanup. destruct (Z.eqb_spec (g_initialized st) 0); simpl;
      [left; assumption | left; reflexivity].
Qed.

Lemma after_invariant calls : forall st,
  g_initialized st = 0 \/ g_initialized st = 1 ->
  (g_initialized (after calls st) = 0 \/ g_initialized (after calls st) = 1) /\
  events (after calls st)
  = events st ++ replicate (initialisations calls st) CrcGenerateTable.
Proof.
  induction calls as [|c rest IH]; intros st H; simpl.
  - split; [exact H | rewrite app_nil_r; reflexivity].
  - destruct (IH (call st c) (call_flag st c H)) as [F E].
    split; [exact F|]. change (after (c :: rest) st) with (after rest (call st c)).
    rewrite E.
    rewrite replicate_add, app_assoc. f_equal.
    destruct c; simpl.
    + unfold sevenzip_init.
      destruct (Z.eqb_spec (g_initialized st) 0); simpl;
        [reflexivity | rewrite app_nil_r; reflexivity].
    + unfold sevenzip_cleanup.
      destruct (Z.eqb_spec (g_initialized st) 0); simpl;
        rewrite app_nil_r; reflexivity.
Qed.

Lemma after_initialised calls : forall st,
  (g_initialized st <> 0 -> events st <> []) ->
  g_initialized (after calls st) <> 0 -> events (after calls st) <> [].
Proof.
  induction calls as [|c rest IH]; intros st H; simpl; [exact H|].
  apply IH. destruct c; simpl.
  - unfold sevenzip_init.
    destruct (Z.eqb_spec (g_initialized st) 0); simpl; [|exact H].
    intros _ E. apply app_eq_nil in E. destruct E as [_ E]. discriminate.
  - unfold sevenzip_cleanup.
    destruct (Z.eqb_spec (g_initialized st) 0) as [E|E]; simpl.
    + exact H.
    + intros N. contradiction.
Qed.

(** X1. Whatever sequence of [sevenzip_init] and [sevenzip_cleanup] calls a
    process makes, the flag stays 0 or 1, the CRC table has been generated
    whenever the flag is set, and the table is generated once for every
    [sevenzip_init] that finds the flag clear, so again after every
    [sevenzip_cleanup]. *)
Theorem lifecycle_invariant : forall calls,
  (g_initialized (after calls loaded) = 0 \/
   g_initialized (after calls loaded) = 1) /\
  (g_initialized (after calls loaded) = 1 ->
   CrcGenerateTable ∈ events (after calls loaded)) /\
  events (after calls loaded)
  = replicate (initialisations calls loaded) CrcGenerateTable /\
  after (calls ++ [Cleanup; Init]) loaded
  = {| g_initialized := 1;
       events := events (after calls loaded) ++ [CrcGenerateTable] |}.
Proof.
  intros calls.
  destruct (after_invariant calls loaded) as [F E]; [left; reflexivity|].
  simpl in E. split; [exact F|]. split; [|split; [exact E|]].
  - intros H1.
    assert (N : events (after calls loaded) <> []).
    { apply after_initialised; [intros N; exfalso; apply N; reflexivity|].
      rewrite H1. discriminate. }
    destruct (events (after calls loaded)) as [|[] evs]; [contradiction|].
    apply list_elem_of_here.
  - unfold after. rewrite fold_left_app. fold (after calls loaded).
    clear E. destruct (after calls loaded) as [g evs]. simpl in F.
    unfold call, fold_left, sevenzip_cleanup, sevenzip_init.
    destruct F as [-> | ->]; reflexivity.
Qed.

End Calls.

Lemma lifecycle_invariant_witness :
  g_initialized (after 0 [Init; Init; Cleanup; Init] loaded) = 1 /\
  CrcGenerateTable ∈ events (after 0 [Init; Init; Cleanup; Init] loaded) /\
  events (after 0 [Init; Init; Cleanup; Init] loaded)
  = [CrcGenerateTable; CrcGenerateTable].
Proof.
  destruct (lifecycle_invariant 0 [Init; Init; Cleanup; Init])
    as (_ & H & E & _).
  split; [reflexivity|]. split; [apply H; reflexivity | exact E].
Defined.

End Lifecycle.

(** ** More on [sevenzip_free_list] *)

Module Disposal.
Import FFI.

Lemma free_shrinks p (h h' : heap) : free p h = Ok h' -> h' ⊆ h.
Proof.
  unfold free. destruct (p =? NULL).
  - intros E. inversion E. reflexivity.
  - destruct (h !! p); [|discriminate]. intros E. inversion E.
    apply delete_subseteq.
Qed.

Lemma free_names_shrinks list n : forall i (h h' : heap),
  free_names list i n h = Ok h' -> h' ⊆ h.
Proof.
  induction n as [|n IH]; intros i h h' E; simpl in E.
  - destruct (load_list list h); simpl in E; inversion E. reflexivity.
  - destruct (load_list list h) as [l|]; simpl in E; [|discriminate].
    destruct (load_entry (entries l) i h) as [e|]; simpl in E; [|discriminate].
    destruct (negb (name e =? NULL)).
    + destruct (free (name e) h) as [h1|] eqn:Ef; simpl in E; [|discriminate].
      apply IH in E. apply free_shrinks in Ef.
      etransitivity; eassumption.
    + simpl in E. apply IH in E. exact E.
Qed.

(** X2. A call of [sevenzip_free_list] that returns normally has only
    released memory: every allocation that is live afterwards was live
    before, with the contents it had, and the header the argument points to
    is gone. *)
Theorem free_list_only_releases : forall list (h h' : heap),
  sevenzip_free_list list h = Ok h' ->
  h' ⊆ h /\ (list <> NULL -> h' !! list = None).
Proof.
  intros list h h' E. unfold sevenzip_free_list in E.
  destruct (Z.eqb_spec list NULL) as [Hn|Hn].
  { inversion E. split; [reflexivity | contradiction]. }
  destruct (load_list list h) as [l|]; simpl in E; [|discriminate].
  assert (G : forall h1, h1 ⊆ h -> free list h1 = Ok h' ->
              h' ⊆ h /\ (list <> NULL -> h' !! list = None)).
  { intros h1 S1 Ef. split.
    - apply free_shrinks in Ef. etransitivity; eassumption.
    - intros _. unfold free in Ef.
      destruct (Z.eqb_spec list NULL); [contradiction|].
      destruct (h1 !! list); [|discriminate]. inversion Ef.
      apply lookup_delete_eq. }
  destruct (negb (entries l =? NULL)).
  - destruct (free_names list 0 (Z.to_nat (count l)) h) as [h2|] eqn:E2;
      simpl in E; [|discriminate].
    destruct (load_list list h2) as [l'|]; simpl in E; [|discriminate].
    destruct (free (entries l') h2) as [h3|] eqn:E3; simpl in E;
      [|discriminate].
    apply (G h3); [|exact E].
    apply free_names_shrinks in E2. apply free_shrinks in E3.
    etransitivity; eassumption.
  - simpl in E. apply (G h); [reflexivity | exact E].
Qed.

Lemma release_lookup_in ps (h : heap) p : p ∈ ps -> release ps h !! p = None.
Proof.
  induction ps as [|q ps IH]; simpl; intros Hp; [inversion Hp|].
  apply elem_of_cons in Hp. destruct Hp as [->|Hp].
  - apply lookup_delete_eq.
  - destruct (decide (q = p)) as [->|Hne].
    + apply lookup_delete_eq.
    + rewrite lookup_delete_ne by exact Hne. apply IH. exact Hp.
Qed.

(** What the loop needs in order to finish: the names that are not NULL are
    live, pairwise different and different from the header. *)
Lemma free_names_finishes list arr n0 : forall post pre (h h' : heap),
  list <> NULL -> arr <> NULL ->
  h !! list = Some (BList {| entries := arr; count := n0 |}) ->
  h !! arr = Some (BEntries (pre ++ post)) ->
  free_names list (length pre) (length post) h = Ok h' ->
  NoDup (live_names post) /\ (list ∉ live_names post) /\
  (forall p, p ∈ live_names post -> is_Some (h !! p)) /\
  h' = release (live_names post) h.
Proof.
  induction post as [|e post IH]; intros pre h h' Hl Ha Hhl Hha E.
  - cbn [length free_names] in E. unfold load_list in E.
    destruct (Z.eqb_spec list NULL); [contradiction|].
    rewrite Hhl in E. simpl in E. inversion E.
    repeat split; [constructor | inversion 1 | intros p Hp; inversion Hp].
  - cbn [length free_names] in E. unfold load_list in E.
    destruct (Z.eqb_spec list NULL); [contradiction|].
    rewrite Hhl in E. cbn [bind entries] in E. unfold load_entry in E.
    destruct (Z.eqb_spec arr NULL); [contradiction|].
    rewrite Hha, list_lookup_middle in E by reflexivity. cbn [bind] in E.
    assert (Hpre : length (pre ++ [e]) = S (length pre))
      by (rewrite length_app; simpl; lia).
    rewrite <- Hpre in E.
    assert (Hha' : h !! arr = Some (BEntries ((pre ++ [e]) ++ post)))
      by (rewrite <- app_assoc; exact Hha).
    rewrite live_names_cons.
    destruct (decide (name e <> NULL)) as [Hne|Heq].
    + destruct (Z.eqb_spec (name e) NULL) as [|_]; [contradiction|].
      cbn [negb] in E. unfold free in E.
      destruct (Z.eqb_spec (name e) NULL) as [|_]; [contradiction|].
      destruct (h !! name e) as [b|] eqn:Hb; [|discriminate].
      cbn [bind] in E.
      (* the header must survive the release of the name *)
      assert (Hnl : name e <> list).
      { intros Heq. rewrite Heq in E.
        destruct post; cbn [length free_names] in E; unfold load_list in E;
          destruct (Z.eqb_spec list NULL); try contradiction;
          rewrite lookup_delete_eq in E; discriminate. }
      destruct (decide (name e = arr)) as [Hea|Hea].
      * (* the array itself was released: no entry can follow *)
        destruct post as [|e' post'].
        { cbn [length free_names] in E. unfold load_list in E.
          destruct (Z.eqb_spec list NULL); [contradiction|].
          rewrite lookup_delete_ne, Hhl in E by exact Hnl.
          simpl in E. inversion E.
          change (live_names []) with (@nil ptr).
          repeat split.
          - apply NoDup_singleton.
          - intros Hin. apply list_elem_of_singleton in Hin. congruence.
          - intros p Hp. apply list_elem_of_singleton in Hp. subst p.
            eexists; exact Hb. }
        { exfalso. cbn [length free_names] in E. unfold load_list in E.
          destruct (Z.eqb_spec list NULL); [contradiction|].
          rewrite lookup_delete_ne, Hhl in E by exact Hnl.
          cbn [bind entries] in E. unfold load_entry in E.
          destruct (Z.eqb_spec arr NULL); [contradiction|].
          rewrite Hea, lookup_delete_eq in E. discriminate. }
      * destruct (IH (pre ++ [e]) (delete (name e) h) h' Hl Ha) as
          (Hnd & Hnin & Hlive & Hh'); try assumption.
        { rewrite lookup_delete_ne by exact Hnl. exact Hhl. }
        { rewrite lookup_delete_ne by exact Hea. exact Hha'. }
        repeat split.
        -- apply NoDup_cons. split; [|exact Hnd].
           intros Hin. apply Hlive in Hin.
           rewrite lookup_delete_eq in Hin. destruct Hin as [? Hin].
           discriminate.
        -- apply not_elem_of_cons. split; [congruence | exact Hnin].
        -- intros p Hp. apply elem_of_cons in Hp. destruct Hp as [->|Hp].
           ++ eexists; exact Hb.
           ++ apply Hlive in Hp. destruct Hp as [b' Hp].
              apply lookup_delete_Some in Hp. destruct Hp as [_ Hp].
              eexists; exact Hp.
        -- rewrite Hh'. simpl. apply release_delete.
    + assert (En : name e = NULL) by (destruct (decide (name e = NULL)); tauto).
      rewrite En in E. cbn [Z.eqb NULL negb bind] in E.
      apply (IH (pre ++ [e]) h h' Hl Ha Hhl Hha' E).
Qed.

(** X3. For a listing whose header and array are live and whose count is
    the length of the array, [sevenzip_free_list] returns normally exactly
    when the names that are not NULL are live allocations, pairwise
    different and different from the array and the header. A name shared by
    two entries, or one that is no longer allocated, makes a [free] fail. *)
Theorem free_list_succeeds_iff : forall list arr es (h : heap),
  list <> NULL -> arr <> NULL ->
  h !! list = Some (BList {| entries := arr;
                             count := Z.of_nat (length es) |}) ->
  h !! arr = Some (BEntries es) ->
  ((exists h', sevenzip_free_list list h = Ok h') <->
   NoDup (list :: arr :: live_names es) /\
   (forall p, p ∈ live_names es -> is_Some (h !! p))).
Proof.
  intros list arr es h Hl Ha Hhl Hha.
  assert (Hla : list <> arr) by (intros Heq; rewrite Heq in Hhl; congruence).
  unfold sevenzip_free_list, load_list.
  destruct (Z.eqb_spec list NULL) as [|_]; [contradiction|].
  rewrite Hhl. cbn [bind entries count].
  destruct (Z.eqb_spec arr NULL) as [|_]; [contradiction|].
  cbn [negb]. rewrite Nat2Z.id.
  split.
  - intros [h' E].
    destruct (free_names list 0 (length es) h) as [h1|] eqn:E1;
      cbn [bind] in E; [|discriminate].
    destruct (free_names_finishes list arr _ es [] h h1 Hl Ha Hhl Hha E1)
      as (Hnd & Hnin & Hlive & ->).
    destruct (Z.eqb_spec list NULL) as [|_]; [contradiction|].
    rewrite release_lookup_ne, Hhl in E by exact Hnin. cbn [bind entries] in E.
    split; [|exact Hlive].
    apply NoDup_cons. split.
    { apply not_elem_of_cons. split; assumption. }
    apply NoDup_cons. split; [|exact Hnd].
    intros Hin. unfold free in E.
    destruct (Z.eqb_spec arr NULL) as [|_]; [contradiction|].
    rewrite release_lookup_in in E by exact Hin. discriminate.
  - intros [Hnd Hlive].
    pose proof (free_names_wellformed list arr _ es [] h Hl Ha Hhl Hha Hnd
      Hlive) as Hloop.
    change (length (@nil SevenZipEntry)) with 0%nat in Hloop.
    rewrite Hloop. cbn [bind].
    apply NoDup_cons in Hnd. destruct Hnd as [Hl1 Hnd].
    apply NoDup_cons in Hnd. destruct Hnd as [Ha1 Hnd].
    apply not_elem_of_cons in Hl1. destruct Hl1 as [_ Hl1].
    destruct (Z.eqb_spec list NULL) as [|_]; [contradiction|].
    rewrite release_lookup_ne, Hhl by exact Hl1. cbn [bind entries].
    unfold free.
    destruct (Z.eqb_spec arr NULL) as [|_]; [contradiction|].
    rewrite release_lookup_ne, Hha by exact Ha1. cbn [bind].
    destruct (Z.eqb_spec list NULL) as [|_]; [contradiction|].
    rewrite lookup_delete_ne by congruence.
    rewrite release_lookup_ne, Hhl by exact Hl1.
    eexists; reflexivity.
Qed.

Lemma free_list_only_releases_witness :
  sevenzip_free_list 100 heap_example = Ok (<[900 := BChars "other"]> ∅) /\
  (<[900 := BChars "other"]> ∅ : heap) ⊆ heap_example /\
  (<[900 := BChars "other"]> ∅ : heap) !! 100 = None.
Proof.
  assert (E : sevenzip_free_list 100 heap_example
              = Ok (<[900 := BChars "other"]> ∅))
    by (vm_compute; reflexivity).
  split; [exact E|].
  destruct (free_list_only_releases 100 heap_example _ E) as [S N].
  split; [exact S | apply N; discriminate].
Defined.

(** A listing at address 100 whose two entries share the name at 301. *)
Definition heap_shared_name : heap :=
  <[100 := BList {| entries := 200; count := 2 |}]>
  (<[200 := BEntries [mkEntry 301 5 3 0 0; mkEntry 301 5 3 0 0]]>
  (<[301 := BChars "a.txt"]> ∅)).

Lemma free_list_succeeds_iff_witness :
  (exists h', sevenzip_free_list 100 heap_example = Ok h') /\
  ~ (exists h', sevenzip_free_list 100 heap_shared_name = Ok h').
Proof.
  split.
  - apply (free_list_succeeds_iff 100 200
             [mkEntry 301 5 3 0 0; mkEntry 0 0 0 0 1; mkEntry 303 7 4 0 0]
             heap_example).
    + discriminate.
    + discriminate.
    + reflexivity.
    + reflexivity.
    + split.
      * apply (bool_decide_unpack _). vm_compute. exact I.
      * intros p Hp. vm_compute live_names in Hp.
        repeat (apply elem_of_cons in Hp; destruct Hp as [->|Hp]);
          [eexists; reflexivity | eexists; reflexivity | inversion Hp].
  - intros Hok.
    apply (free_list_succeeds_iff 100 200
             [mkEntry 301 5 3 0 0; mkEntry 301 5 3 0 0] heap_shared_name)
      in Hok.
    + destruct Hok as [Hnd _]. revert Hnd.
      apply (bool_decide_unpack _). vm_compute. exact I.
    + discriminate.
    + discriminate.
    + reflexivity.
    + reflexivity.
Defined.

End Disposal.

(** ** Text produced by the forensic archiver *)

Module Display.

Fixpoint string_take (n : nat) (s : string) : string :=
  match n, s with
  | S n', String c rest => String c (string_take n' rest)
  | _, _ => EmptyString
  end.

Fixpoint string_drop (n : nat) (s : string) : string :=
  match n, s with
  | S n', String _ rest => string_drop n' rest
  | _, _ => s
  end.

(** [snprintf(buffer, size, ...)] stores at most [size - 1] characters of
    the text and a terminator. *)
Definition snprintf (size : nat) (text : string) : string :=
  string_take (size - 1) text.

(** The file name shown by [forensic_progress_callback]:
    [current_file_name + strlen(current_file_name) - 52] is the name without
    its first [strlen - 52] characters. *)
Definition display_name (current_file_name : string) : string :=
  if (55 <? String.length current_file_name)%nat
  then snprintf 60
         ("..." ++ string_drop (String.length current_file_name - 52)
                     current_file_name)%string
  else snprintf 60 current_file_name.

Definition decimal_digit (d : Z) : ascii := ascii_of_nat (Z.to_nat (48 + d)).

(** The decimal digits of [n], most significant first, put in front of
    [acc]; [fuel] bounds their number. *)
Fixpoint unsigned_digits (fuel : nat) (n : Z) (acc : string) : string :=
  match fuel with
  | O => acc
  | S fuel' =>
      let acc' := String (decimal_digit (n mod 10)) acc in
      if n / 10 =? 0 then acc' else unsigned_digits fuel' (n / 10) acc'
  end.

(** The conversions [%llu] and [%ld] of [printf]; a number has no more
    decimal digits than binary ones. *)
Definition print_unsigned (n : Z) : string :=
  unsigned_digits (S (Z.to_nat (Z.log2 n))) n EmptyString.

Definition print_signed (n : Z) : string :=
  if n <? 0 then String "-" (print_unsigned (- n)) else print_unsigned n.

(** [format_duration]; [/] and [%] of C are [Z.quot] and [Z.rem]. The
    buffers of the callers hold 32 bytes. *)
Definition format_duration (seconds : Z) (size : nat) : string :=
  if seconds <? 60 then
    snprintf size (print_signed seconds ++ "s")%string
  else if seconds <? 3600 then
    snprintf size (print_signed (Z.quot seconds 60) ++ "m "
                   ++ print_signed (Z.rem seconds 60) ++ "s")%string
  else
    let hours := Z.quot seconds 3600 in
    let mins := Z.quot (Z.rem seconds 3600) 60 in
    snprintf size (print_signed hours ++ "h " ++ print_signed mins ++ "m")%string.

Lemma string_take_length n s :
  String.length (string_take n s) = Nat.min n (String.length s).
Proof.
  revert s. induction n as [|n IH]; intros [|c s]; simpl; try reflexivity.
  rewrite IH. reflexivity.
Qed.

Lemma string_take_all n s :
  (String.length s <= n)%nat -> string_take n s = s.
Proof.
  revert s. induction n as [|n IH]; intros [|c s] H; simpl in *;
    try reflexivity; try lia.
  rewrite IH by lia. reflexivity.
Qed.

Lemma string_drop_length n s :
  String.length (string_drop n s) = (String.length s - n)%nat.
Proof.
  revert s. induction n as [|n IH]; intros [|c s]; simpl; try reflexivity.
  apply IH.
Qed.

Lemma append_cons c s t : (String c s ++ t)%string = String c (s ++ t)%string.
Proof. reflexivity. Qed.

Lemma string_take_drop n s : (string_take n s ++ string_drop n s)%string = s.
Proof.
  revert s. induction n as [|n IH]; intros [|c s]; simpl; try reflexivity.
  rewrite append_cons, IH. reflexivity.
Qed.

Lemma append_length s t :
  String.length (s ++ t)%string = (String.length s + String.length t)%nat.
Proof.
  induction s as [|c s IH]; [reflexivity|].
  rewrite append_cons. simpl. rewrite IH. reflexivity.
Qed.

(** X4. The file name on the progress line always fits its 60-byte buffer:
    it has at most 55 characters. A name of up to 55 characters is shown
    whole; a longer one is shown as three dots followed by its last 52
    characters. *)
Theorem display_name_fits : forall current_file_name,
  (String.length (display_name current_file_name) <= 55)%nat /\
  ((String.length current_file_name <= 55)%nat ->
   display_name current_file_name = current_file_name) /\
  ((55 < String.length current_file_name)%nat ->
   exists front tail,
     current_file_name = (front ++ tail)%string /\
     String.length tail = 52%nat /\
     display_name current_file_name = ("..." ++ tail)%string).
Proof.
  intros name. unfold display_name, snprintf.
  destruct (Nat.ltb_spec 55 (String.length name)) as [Hlong|Hshort].
  - set (tail := string_drop (String.length name - 52) name).
    assert (Ht : String.length tail = 52%nat)
      by (unfold tail; rewrite string_drop_length; lia).
    assert (E : string_take (60 - 1) ("..." ++ tail)%string
                = ("..." ++ tail)%string).
    { apply string_take_all. rewrite append_length, Ht. simpl. lia. }
    rewrite E. split; [|split].
    + rewrite append_length, Ht. simpl. lia.
    + intros H. lia.
    + intros _. exists (string_take (String.length name - 52) name), tail.
      split; [|split; [exact Ht | reflexivity]].
      unfold tail. symmetry. apply string_take_drop.
  - rewrite string_take_all by lia. split; [lia|]. split.
    + reflexivity.
    + intros H. lia.
Qed.

(** *** Decimal text *)

Lemma unsigned_digits_length fuel : forall n acc d,
  0 <= n < 10 ^ Z.of_nat d -> (1 <= d)%nat ->
  (String.length (unsigned_digits fuel n acc) <= d + String.length acc)%nat.
Proof.
  induction fuel as [|fuel IH]; intros n acc d Hn Hd; simpl; [lia|].
  destruct (Z.eqb_spec (n / 10) 0) as [E|E]; simpl; [lia|].
  destruct d as [|[|d]]; [lia | |].
  - exfalso. apply E. apply Z.div_small. simpl in Hn. lia.
  - specialize (IH (n / 10) (String (decimal_digit (n mod 10)) acc) (S d)).
    simpl String.length in IH.
    assert (0 <= n / 10 < 10 ^ Z.of_nat (S d)).
    { split; [apply Z.div_pos; lia|].
      apply Z.div_lt_upper_bound; [lia|].
      replace (Z.of_nat (S (S d))) with (Z.succ (Z.of_nat (S d))) in Hn by lia.
      rewrite Z.pow_succ_r in Hn by lia. lia. }
    specialize (IH H). lia.
Qed.

Lemma print_unsigned_length n d :
  0 <= n < 10 ^ Z.of_nat d -> (1 <= d)%nat ->
  (String.length (print_unsigned n) <= d)%nat.
Proof.
  intros Hn Hd. unfold print_unsigned.
  pose proof (unsigned_digits_length (S (Z.to_nat (Z.log2 n))) n EmptyString d
                Hn Hd) as L.
  change (String.length EmptyString) with 0%nat in L. lia.
Qed.

Lemma print_signed_length n d :
  - 10 ^ Z.of_nat d < n < 10 ^ Z.of_nat d -> (1 <= d)%nat ->
  (String.length (print_signed n) <= S d)%nat.
Proof.
  intros Hn Hd. unfold print_signed.
  destruct (Z.ltb_spec n 0).
  - simpl String.length.
    assert (Hm : 0 <= - n < 10 ^ Z.of_nat d) by lia.
    pose proof (print_unsigned_length (- n) d Hm Hd). lia.
  - assert (Hm : 0 <= n < 10 ^ Z.of_nat d) by lia.
    pose proof (print_unsigned_length n d Hm Hd). lia.
Qed.

Lemma print_signed_nonneg_length n d :
  0 <= n < 10 ^ Z.of_nat d -> (1 <= d)%nat ->
  (String.length (print_signed n) <= d)%nat.
Proof.
  intros Hn Hd. unfold print_signed.
  destruct (Z.ltb_spec n 0); [lia|]. apply print_unsigned_length; assumption.
Qed.

(** X5. For every duration a 64-bit [time_t] can hold, negative ones
    included, the text of [format_duration] has at most 21 characters: the
    32-byte buffers of the callers never truncate it. *)
Theorem format_duration_fits : forall seconds size,
  - 2 ^ 63 <= seconds < 2 ^ 63 -> (32 <= size)%nat ->
  (String.length (format_duration seconds size) <= 21)%nat /\
  format_duration seconds size = format_duration seconds 32.
Proof.
  intros seconds size Hr Hs.
  assert (G : forall text, (String.length text <= 21)%nat ->
            (String.length (snprintf size text) <= 21)%nat /\
            snprintf size text = snprintf 32 text).
  { intros text Ht. unfold snprintf.
    rewrite !string_take_all by lia. split; [exact Ht | reflexivity]. }
  unfold format_duration.
  destruct (Z.ltb_spec seconds 60).
  - apply G. rewrite append_length. simpl.
    pose proof (print_signed_length seconds 19) as L.
    assert (2 ^ 63 < 10 ^ Z.of_nat 19) by (vm_compute; reflexivity).
    specialize (L ltac:(lia) ltac:(lia)). lia.
  - destruct (Z.ltb_spec seconds 3600).
    + apply G. rewrite !append_length. simpl.
      pose proof (Z.quot_pos seconds 60).
      assert (Z.quot seconds 60 < 60)
        by (apply Z.quot_lt_upper_bound; lia).
      pose proof (Z.rem_bound_pos seconds 60).
      pose proof (print_signed_nonneg_length (Z.quot seconds 60) 2) as L1.
      pose proof (print_signed_nonneg_length (Z.rem seconds 60) 2) as L2.
      change (10 ^ Z.of_nat 2) with 100 in *.
      specialize (L1 ltac:(lia) ltac:(lia)).
      specialize (L2 ltac:(lia) ltac:(lia)). lia.
    + apply G. rewrite !append_length. simpl.
      pose proof (Z.quot_pos seconds 3600).
      assert (Z.quot seconds 3600 < 10 ^ Z.of_nat 16).
      { apply Z.quot_lt_upper_bound; [lia | lia |].
        assert (2 ^ 63 < 3600 * 10 ^ Z.of_nat 16) by (vm_compute; reflexivity).
        lia. }
      pose proof (Z.rem_bound_pos seconds 3600).
      pose proof (Z.quot_pos (Z.rem seconds 3600) 60).
      assert (Z.quot (Z.rem seconds 3600) 60 < 60)
        by (apply Z.quot_lt_upper_bound; lia).
      pose proof (print_signed_nonneg_length (Z.quot seconds 3600) 16) as L1.
      pose proof (print_signed_nonneg_length (Z.quot (Z.rem seconds 3600) 60)
                    2) as L2.
      change (10 ^ Z.of_nat 2) with 100 in *.
      specialize (L1 ltac:(lia) ltac:(lia)).
      specialize (L2 ltac:(lia) ltac:(lia)). lia.
Qed.

Lemma display_name_fits_witness :
  display_name "evidence/disk0.img" = "evidence/disk0.img" /\
  (String.length (display_name
     "cases/2024/0117/workstation-03/images/partition-2/part-0001.raw")
   <= 55)%nat /\
  exists front tail,
    "cases/2024/0117/workstation-03/images/partition-2/part-0001.raw"
    = (front ++ tail)%string /\
    String.length tail = 52%nat /\
    display_name
      "cases/2024/0117/workstation-03/images/partition-2/part-0001.raw"
    = ("..." ++ tail)%string.
Proof.
  split.
  - destruct (display_name_fits "evidence/disk0.img") as (_ & H & _).
    apply H. simpl. lia.
  - destruct (display_name_fits
      "cases/2024/0117/workstation-03/images/partition-2/part-0001.raw")
      as (L & _ & H).
    split; [exact L|]. apply H. simpl. lia.
Defined.

Lemma format_duration_fits_witness :
  (String.length (format_duration 86399 64) <= 21)%nat /\
  format_duration 86399 64 = format_duration 86399 32 /\
  format_duration 86399 32 = "23h 59m".
Proof.
  destruct (format_duration_fits 86399 64) as [L E]; [lia | lia |].
  split; [exact L|]. split; [exact E | vm_compute; reflexivity].
Defined.

End Display.

(** ** [format_bytes] of the two command-line programs *)

Module Units.
Import Double Display.

(** [x >= y] on [double]; false when an operand is not a number. *)
Definition ge (x y : double) : bool := SFleb y x.

Definition units : list string := ["B"; "KB"; "MB"; "GB"; "TB"].

(** The [while] loop of [format_bytes]; [fuel] is [4 - unit_index], the
    number of iterations the test [unit_index < 4] still allows. *)
Fixpoint scale_down (fuel : nat) (value : double) (unit_index : nat)
    : double * nat :=
  match fuel with
  | O => (value, unit_index)
  | S fuel' =>
      if ge value (of_Z 1024)
      then scale_down fuel' (div value (of_Z 1024)) (S unit_index)
      else (value, unit_index)
  end.

(** What [format_bytes] hands to [snprintf]: a finished text for the format
    [%llu B], or the value and the unit for the format [%.2f %s], whose
    rendering is left to the C library. *)
Inductive formatted :=
| Text (text : string)
| Fixed2 (size : nat) (value : double) (unit : string).

(** [format_bytes] of forensic_archiver.c. Reading [units[unit_index]]
    outside the array has no result. *)
Definition format_bytes (bytes : Z) (size : nat) : option formatted :=
  let '(value, unit_index) := scale_down 4 (of_Z bytes) 0 in
  if (unit_index =? 0)%nat
  then Some (Text (snprintf size (print_unsigned bytes ++ " B")%string))
  else match units !! unit_index with
       | Some unit => Some (Fixed2 size value unit)
       | None => None
       end.

(** [format_bytes] of stream_compress.c, which has the second format
    only. *)
Definition format_bytes_stream (bytes : Z) (size : nat) : option formatted :=
  let '(value, unit_index) := scale_down 4 (of_Z bytes) 0 in
  match units !! unit_index with
  | Some unit => Some (Fixed2 size value unit)
  | None => None
  end.

(** [x] is a [double] with a full mantissa whose value is exactly
    [n / 1024^k]. *)
Definition scaled (x : double) (n k : Z) : Prop :=
  exists m e, x = S754_finite false m e /\ digits2_pos m = 53%positive /\
              -1074 <= e <= 971 /\
              Z.pos m * 2 ^ (e + 1074) * 1024 ^ k = n * 2 ^ 1074.

Lemma ge_1024 m e :
  digits2_pos m = 53%positive ->
  ge (S754_finite false m e) (of_Z 1024) = (-42 <=? e).
Proof.
  intros Hd. rewrite of_Z_1024. unfold ge, SFleb, SFcompare.
  pose proof (digits2_bounds m) as [Hlo _]. rewrite Hd in Hlo.
  replace (2 ^ (53 - 1)) with 4503599627370496 in Hlo by reflexivity.
  destruct (Z.compare_spec (-42) e) as [E|E|E].
  - rewrite Pos.compare_cont_spec. cbn [Pos.switch_Eq].
    assert (C : (4503599627370496 ?= m)%positive <> Gt).
    { apply Pos.compare_le_iff. apply Pos2Z.pos_le_pos. exact Hlo. }
    destruct (Z.leb_spec (-42) e) as [_|Hn]; [|exfalso; lia].
    revert C. generalize (4503599627370496 ?= m)%positive.
    intros [| |] C; [reflexivity | reflexivity | contradiction].
  - destruct (Z.leb_spec (-42) e); [reflexivity | lia].
  - destruct (Z.leb_spec (-42) e); [lia | reflexivity].
Qed.

Lemma div_eucl_exact a b : 0 < b -> Z.div_eucl (a * b) b = (a, 0).
Proof.
  intros Hb.
  pose proof (Z.div_mul a b ltac:(lia)) as Hq.
  pose proof (Z.mod_mul a b ltac:(lia)) as Hr.
  unfold Z.div, Z.modulo in Hq, Hr.
  destruct (Z.div_eucl (a * b) b) as [q r]. simpl in Hq, Hr. congruence.
Qed.

Lemma div_1024 m e :
  digits2_pos m = 53%positive -> -1063 <= e <= 981 ->
  div (S754_finite false m e) (of_Z 1024) = S754_finite false m (e - 10).
Proof.
  intros Hd He. rewrite of_Z_1024. unfold div, SFdiv, SFdiv_core_binary.
  cbn [xorb Zdigits2]. rewrite Hd.
  replace (digits2_pos 4503599627370496) with 53%positive by reflexivity.
  unfold fexp, emin, prec, emax.
  replace (Z.min (Z.max (53 + e - (53 + -42) - 53) (3 - 1024 - 53)) (e - -42))
    with (e - 11) by lia.
  replace (e - -42 - (e - 11)) with 53 by lia.
  replace (Z.shiftl (Z.pos m) 53) with (Z.pos m~0 * 4503599627370496).
  2:{ rewrite Z.shiftl_mul_pow2 by lia.
      replace (2 ^ 53) with (2 * 4503599627370496) by reflexivity. lia. }
  rewrite div_eucl_exact by lia.
  cbn [new_location Z.even new_location_even Z.eqb].
  unfold binary_round_aux, shr_fexp, fexp, emin.
  cbn [Zdigits2 digits2_pos]. rewrite Hd.
  replace (Z.max (Z.pos (Pos.succ 53) + (e - 11) - 53) (3 - 1024 - 53)
           - (e - 11)) with 1 by lia.
  cbn [shr shr_record_of_loc SpecFloat.iter_pos shr_1 shr_m shr_r shr_s orb
       loc_of_shr_record round_nearest_even Zdigits2].
  rewrite Hd.
  replace (Z.max (53 + (e - 11 + 1) - 53) (3 - 1024 - 53) - (e - 11 + 1))
    with 0 by lia.
  cbn [shr shr_m].
  destruct (Z.leb_spec (e - 11 + 1) (1024 - 53)); [|lia].
  f_equal. lia.
Qed.

(** The loop on a value with a full mantissa: it divides [j] times, stops
    below 1024 unless the four units are used up, and only ever divided a
    value of at least 1024. *)
Lemma scale_down_normal fuel : forall m e i,
  digits2_pos m = 53%positive ->
  -1063 + 10 * Z.of_nat fuel <= e <= 981 ->
  exists j : nat,
    (j <= fuel)%nat /\
    scale_down fuel (S754_finite false m e) i
    = (S754_finite false m (e - 10 * Z.of_nat j), (i + j)%nat) /\
    ((j < fuel)%nat -> e - 10 * Z.of_nat j < -42) /\
    ((0 < j)%nat -> -42 <= e - 10 * (Z.of_nat j - 1)).
Proof.
  induction fuel as [|fuel IH]; intros m e i Hd He.
  - exists 0%nat. cbn [scale_down]. repeat split; try lia.
    f_equal; [f_equal; lia | lia].
  - cbn [scale_down]. rewrite ge_1024 by exact Hd.
    destruct (Z.leb_spec (-42) e) as [Hge|Hlt].
    + rewrite div_1024 by (try exact Hd; lia).
      destruct (IH m (e - 10) (S i) Hd ltac:(lia)) as (j & Hj & E & Hs & Hp).
      exists (S j). rewrite E. repeat split; try lia.
      f_equal; [f_equal; lia | lia].
    + exists 0%nat. repeat split; try lia.
      f_equal; [f_equal; lia | lia].
Qed.

Lemma pow_1024 k : 0 <= k -> 1024 ^ k = 2 ^ (10 * k).
Proof.
  intros Hk. replace 1024 with (2 ^ 10) by reflexivity.
  rewrite <- Z.pow_mul_r by lia. reflexivity.
Qed.

(** The size of the integer a full mantissa and an exponent stand for. *)
Lemma magnitude m e v :
  digits2_pos m = 53%positive -> -52 <= e ->
  Z.pos m * 2 ^ (e + 52) = v * 2 ^ 52 ->
  2 ^ (e + 52) <= v < 2 ^ (e + 53).
Proof.
  intros Hd He Hv.
  pose proof (digits2_bounds m) as [Hlo Hhi]. rewrite Hd in Hlo, Hhi.
  replace (2 ^ (53 - 1)) with (2 ^ 52) in Hlo by reflexivity.
  replace (e + 53) with (Z.succ (e + 52)) by lia.
  rewrite Z.pow_succ_r by lia.
  replace (2 ^ 53) with (2 * 2 ^ 52) in Hhi by reflexivity.
  assert (Hp : 0 < 2 ^ (e + 52)) by (apply Z.pow_pos_nonneg; lia).
  assert (Hq : 0 < 2 ^ 52) by (apply Z.pow_pos_nonneg; lia).
  generalize dependent (2 ^ (e + 52)). generalize dependent (2 ^ 52).
  intros q Hlo Hhi Hq p Hv Hp. split.
  - apply (Z.mul_le_mono_pos_r _ _ q Hq). rewrite <- Hv.
    rewrite (Z.mul_comm p q). apply Z.mul_le_mono_nonneg_r; lia.
  - apply (Z.mul_lt_mono_pos_r q _ _ Hq). rewrite <- Hv.
    replace (2 * p * q) with (2 * q * p) by lia.
    apply Z.mul_lt_mono_pos_r; lia.
Qed.

(** The loop of [format_bytes] on a byte count below 2^53: the unit index
    [k] is the largest one, at most 4, with [1024^k <= bytes], and the value
    handed on is [bytes / 1024^k], exactly. *)
Lemma scale_down_integer bytes :
  0 < bytes < 2 ^ 53 ->
  exists (k : nat) value,
    scale_down 4 (of_Z bytes) 0 = (value, k) /\ (k <= 4)%nat /\
    1024 ^ Z.of_nat k <= bytes /\
    ((k < 4)%nat -> bytes < 1024 ^ (Z.of_nat k + 1)) /\
    scaled value bytes (Z.of_nat k).
Proof.
  intros Hv.
  destruct (of_Z_represents bytes Hv) as (m & e & -> & Hd & He & Hm).
  pose proof (magnitude m e bytes Hd ltac:(lia) Hm) as [Hlo Hhi].
  destruct (scale_down_normal 4 m e 0 Hd ltac:(lia))
    as (k & Hk & E & Hstop & Hdiv).
  exists k, (S754_finite false m (e - 10 * Z.of_nat k)).
  split; [exact E|]. split; [exact Hk|]. split; [|split].
  - rewrite pow_1024 by lia.
    destruct k as [|k]; [change (10 * Z.of_nat 0) with 0; simpl; lia|].
    eapply Z.le_trans; [|exact Hlo].
    apply Z.pow_le_mono_r; lia.
  - intros Hk4. rewrite pow_1024 by lia.
    eapply Z.lt_le_trans; [exact Hhi|].
    apply Z.pow_le_mono_r; lia.
  - exists m, (e - 10 * Z.of_nat k). repeat split; try lia.
    rewrite pow_1024 by lia.
    replace (e - 10 * Z.of_nat k + 1074)
      with (e + 52 + (1022 - 10 * Z.of_nat k)) by lia.
    rewrite Z.pow_add_r by lia.
    replace (2 ^ 1074) with (2 ^ 52 * 2 ^ 1022) by reflexivity.
    replace (2 ^ 1022)
      with (2 ^ (1022 - 10 * Z.of_nat k) * 2 ^ (10 * Z.of_nat k)).
    + rewrite !Z.mul_assoc, Hm. reflexivity.
    + rewrite <- Z.pow_add_r by lia. f_equal. lia.
Qed.

(** X6. [format_bytes] on a byte count below 2^53, in both programs: the
    unit is the largest of B, KB, MB, GB, TB whose size [1024^k] is not above
    the count, the index never leaves the array of five units, and the
    number handed to [%.2f] is exactly [bytes / 1024^k]. Below 1024 the
    forensic archiver prints the count itself with the unit B, and a buffer
    of 32 bytes or more holds that text whole. *)
Theorem format_bytes_unit : forall bytes size,
  0 <= bytes < 2 ^ 53 -> (32 <= size)%nat ->
  exists (k : nat) unit value,
    units !! k = Some unit /\
    (1 <= bytes -> 1024 ^ Z.of_nat k <= bytes /\
                   scaled value bytes (Z.of_nat k)) /\
    ((k < 4)%nat -> bytes < 1024 ^ (Z.of_nat k + 1)) /\
    format_bytes_stream bytes size = Some (Fixed2 size value unit) /\
    format_bytes bytes size
    = if (k =? 0)%nat
      then Some (Text (print_unsigned bytes ++ " B")%string)
      else Some (Fixed2 size value unit).
Proof.
  intros bytes size Hb Hs.
  assert (Htext : bytes < 1024 ->
            snprintf size (print_unsigned bytes ++ " B")%string
            = (print_unsigned bytes ++ " B")%string).
  { intros Hlt. unfold snprintf. apply string_take_all.
    rewrite append_length.
    pose proof (print_unsigned_length bytes 4) as L.
    change (10 ^ Z.of_nat 4) with 10000 in L.
    specialize (L ltac:(lia) ltac:(lia)). simpl. lia. }
  destruct (Z.eq_dec bytes 0) as [->|Hnz].
  - exists 0%nat, "B", (S754_zero false).
    split; [reflexivity|]. split; [lia|]. split; [simpl; lia|].
    split; [reflexivity|].
    unfold format_bytes.
    change (scale_down 4 (of_Z 0) 0) with (S754_zero false, 0%nat).
    cbn [Nat.eqb]. rewrite (Htext ltac:(lia)). reflexivity.
  - destruct (scale_down_integer bytes ltac:(lia))
      as (k & value & E & Hk & Hlo & Hhi & Hsc).
    assert (Hu : exists unit, units !! k = Some unit).
    { do 5 (destruct k as [|k]; [eexists; reflexivity|]). lia. }
    destruct Hu as [unit Hu].
    exists k, unit, value.
    split; [exact Hu|]. split; [intros _; split; assumption|].
    split; [exact Hhi|].
    unfold format_bytes_stream, format_bytes. rewrite E, Hu.
    split; [reflexivity|].
    destruct (Nat.eqb_spec k 0) as [->|_]; [|reflexivity].
    rewrite Htext; [reflexivity|].
    specialize (Hhi ltac:(lia)). simpl in Hhi. lia.
Qed.

Lemma format_bytes_unit_witness :
  format_bytes 1610612736 32
  = Some (Fixed2 32 (S754_finite false 6755399441055744 (-52)) "GB") /\
  format_bytes_stream 1023 64
  = Some (Fixed2 64 (S754_finite false 8998403161718784 (-43)) "B") /\
  format_bytes 1023 64 = Some (Text "1023 B") /\
  exists (k : nat) unit value,
    units !! k = Some unit /\
    (1 <= 1610612736 ->
     1024 ^ Z.of_nat k <= 1610612736 /\
     scaled value 1610612736 (Z.of_nat k)) /\
    ((k < 4)%nat -> 1610612736 < 1024 ^ (Z.of_nat k + 1)) /\
    format_bytes_stream 1610612736 32 = Some (Fixed2 32 value unit) /\
    format_bytes 1610612736 32
    = if (k =? 0)%nat
      then Some (Text (print_unsigned 1610612736 ++ " B")%string)
      else Some (Fixed2 32 value unit).
Proof.
  split; [vm_compute; reflexivity|].
  split; [vm_compute; reflexivity|].
  split; [vm_compute; reflexivity|].
  apply (format_bytes_unit 1610612736 32); lia.
Defined.

End Units.
